(** * ICE correctness rating: extraction, rewriting and execution of snippets

    A shallow embedding of [src/utils/utils.py] and of the batch driver
    [src/ice_correctness_rating_bms.py].

    Python strings are sequences of Unicode code points; they are modelled
    as lists of code points, and the built-in string methods the program
    calls ([splitlines], [in], [find], [rfind], slicing, [replace],
    [startswith], [endswith], [count]) are written out with the behaviour
    of CPython.  The file system is a finite map from paths to contents,
    the console a list of printed lines, and the interpreter behind
    [exec] an oracle passed as a parameter. *)

From Stdlib Require Import String Ascii ZArith NArith Lia List.
From Stdlib Require Import Numbers.DecimalString.
From stdpp Require Import base option list gmap.

Open Scope Z_scope.
Open Scope list_scope.

(** ** Python strings *)

Module PyStr.

(** A character is a code point, a string a list of them. *)
Abbreviation char := N (only parsing).
Abbreviation str := (list N) (only parsing).

(** A literal of the source, given as an ASCII string. *)
Definition py (s : string) : str := List.map N_of_ascii (list_ascii_of_string s).

Definition LF : char := 10%N.
Definition CR : char := 13%N.

(** The line boundaries of [str.splitlines]: LF, VT, FF, CR, FS, GS, RS,
    NEL, LS and PS. *)
Definition is_linebreak (c : char) : bool :=
  (N.eqb c 10 || N.eqb c 11 || N.eqb c 12 || N.eqb c 13 || N.eqb c 28 ||
   N.eqb c 29 || N.eqb c 30 || N.eqb c 133 || N.eqb c 8232 || N.eqb c 8233)%bool%N.

(** [s.splitlines()]: the lines of [s] without their boundaries; CR LF is
    one boundary, and a boundary at the very end opens no further line. *)
Fixpoint splitlines (s : str) : list str :=
  match s with
  | [] => []
  | c :: t =>
      if is_linebreak c then
        [] :: (match t with
               | c' :: t' => if (N.eqb c CR && N.eqb c' LF)%bool
                             then splitlines t' else splitlines t
               | [] => splitlines t
               end)
      else
        match splitlines t with
        | [] => [[c]]
        | l :: ls => (c :: l) :: ls
        end
  end.

(** [s.startswith(p)]. *)
Fixpoint startswith (p s : str) : bool :=
  match p, s with
  | [], _ => true
  | _ :: _, [] => false
  | a :: p', b :: s' => (N.eqb a b && startswith p' s')%bool
  end.

(** [s.endswith(p)]. *)
Definition endswith (p s : str) : bool := startswith (rev p) (rev s).

(** [sub in s]. *)
Fixpoint contains (sub s : str) : bool :=
  (startswith sub s ||
   match s with
   | [] => false
   | _ :: t => contains sub t
   end)%bool.

(** The lowest and the highest index at which [sub] occurs in [s]. *)
Fixpoint index_of (sub s : str) : option nat :=
  if startswith sub s then Some 0%nat
  else match s with
       | [] => None
       | _ :: t => S <$> index_of sub t
       end.

Fixpoint rindex_of (sub s : str) : option nat :=
  match s with
  | [] => if startswith sub [] then Some 0%nat else None
  | _ :: t =>
      match rindex_of sub t with
      | Some i => Some (S i)
      | None => if startswith sub s then Some 0%nat else None
      end
  end.

(** [s.find(sub)] and [s.rfind(sub)]: the index, or -1 when [sub] does
    not occur. *)
Definition find (sub s : str) : Z :=
  match index_of sub s with Some i => Z.of_nat i | None => -1 end.

Definition rfind (sub s : str) : Z :=
  match rindex_of sub s with Some i => Z.of_nat i | None => -1 end.

(** A slice bound as CPython adjusts it: a negative bound counts from the
    end, and the result is clipped to the string. *)
Definition adjust_index (len i : Z) : Z :=
  let i' := if i <? 0 then i + len else i in
  Z.max 0 (Z.min len i').

(** [s[lo:hi]]. *)
Definition slice (s : str) (lo hi : Z) : str :=
  let len := Z.of_nat (length s) in
  let lo' := adjust_index len lo in
  let hi' := adjust_index len hi in
  take (Z.to_nat (hi' - lo')) (drop (Z.to_nat lo') s).

(** The scan behind [replace]: left to right, an occurrence of [old] is
    replaced and the scan resumes after it; [skip] counts the characters
    of the occurrence still to pass over. *)
Fixpoint replace_scan (old new : str) (skip : nat) (s : str) : str :=
  match s with
  | [] => []
  | c :: t =>
      match skip with
      | S k => replace_scan old new k t
      | O =>
          if startswith old s
          then new ++ replace_scan old new (length old - 1) t
          else c :: replace_scan old new 0 t
      end
  end.

(** [s.replace(old, new)]; an empty [old] matches before every character
    and at the end. *)
Definition replace (s old new : str) : str :=
  match old with
  | [] => new ++ flat_map (fun c => c :: new) s
  | _ :: _ => replace_scan old new 0 s
  end.

(** [s.count(sub)]: the number of non-overlapping occurrences. *)
Fixpoint count_scan (sub : str) (skip : nat) (s : str) : nat :=
  match s with
  | [] => 0
  | _ :: t =>
      match skip with
      | S k => count_scan sub k t
      | O =>
          if startswith sub s
          then S (count_scan sub (length sub - 1) t)
          else count_scan sub 0 t
      end
  end.

Definition count (sub s : str) : nat :=
  match sub with
  | [] => S (length s)
  | _ :: _ => count_scan sub 0 s
  end.

(** [sep.join(parts)]. *)
Fixpoint join (sep : str) (parts : list str) : str :=
  match parts with
  | [] => []
  | [p] => p
  | p :: rest => p ++ sep ++ join sep rest
  end.

(** [not l], for a list. *)
Definition is_nil {A} (l : list A) : bool :=
  match l with [] => true | _ => false end.

(** [str(n)] for a non-negative integer. *)
Definition str_of_N (n : N) : str := py (NilZero.string_of_uint (N.to_uint n)).

End PyStr.

Import PyStr.

(** ** [os.path.join] (POSIX) for two components *)

Module OsPath.

Definition sep : str := py "/".

Definition join (a b : str) : str :=
  if startswith sep b then b
  else if (match a with [] => true | _ => false end || endswith sep a)%bool then a ++ b
  else a ++ sep ++ b.

End OsPath.

(** ** The code extractor *)

Definition marker : str := py "```".

(** The loop of [get_code] over the remaining lines, with its three
    variables; the third branch is the [break]. *)
Fixpoint get_code_loop (lines : list str) (code : str) (is_code is_first_line : bool) : str :=
  match lines with
  | [] => code
  | line :: rest =>
      if (negb (contains marker line) && negb is_code)%bool then
        get_code_loop rest code is_code is_first_line
      else if (contains marker line && negb is_code)%bool then
        get_code_loop rest code true true
      else if (contains marker line && is_code)%bool then
        code
      else
        get_code_loop rest (code ++ (if is_first_line then [] else [LF]) ++ line)
                      is_code false
  end.

Definition get_code (model_a_response : str) : str :=
  get_code_loop (splitlines model_a_response) [] false false.

(** ** The path rewriter *)

Definition csv_ext : str := py ".csv".
Definition single_quote : str := py "'".
Definition double_quote : str := [34%N].

Definition quote_symbol (line : str) : str :=
  if contains single_quote line then single_quote else double_quote.

(** [line[start + 1: end]] for the first and the last quote of the line. *)
Definition wrong_path (line : str) : str :=
  let q := quote_symbol line in
  let start := find q line in
  let end_ := rfind q line in
  slice line (start + 1) end_.

(** The loop of [update_dataset_local_path]: [lines] are the lines of the
    original code still to visit, [code] the text that is returned. *)
Fixpoint update_loop (lines : list str) (code path : str) : str :=
  match lines with
  | [] => code
  | line :: rest =>
      if contains csv_ext line then
        if (0 <? length (wrong_path line))%nat then
          let newline := replace line (wrong_path line) path in
          replace code line newline
        else update_loop rest code path
      else update_loop rest code path
  end.

Definition update_dataset_local_path (code filename datasets_path : str) : str :=
  let path := OsPath.join datasets_path filename in
  update_loop (splitlines code) code path.

(** ** The display substituter *)

Definition show_call : str := py ".show()".

Definition savefig_call (image_path : str) : str :=
  py ".savefig(" ++ double_quote ++ image_path ++ double_quote ++ py ")".

Definition replace_show_with_savefig (code id output_images_path : str) : str :=
  if contains show_call code then
    let image_path := OsPath.join output_images_path (id ++ py ".png") in
    replace code show_call (savefig_call image_path)
  else code.

(** ** The world of a run: files, console, exceptions *)

(** Which [except] clause of [execute_code] an exception matches: the
    first one ([SyntaxError] and its subclasses), the second one (any other
    [Exception]), or none ([SystemExit], [KeyboardInterrupt], ...). *)
Inductive exception_kind := IsSyntaxError | IsException | IsBaseException.

(** One entry of [traceback.extract_tb]; index 1 of an entry is its line
    number. *)
Record frame_summary := { fs_filename : str; fs_lineno : N }.

(** A raised exception: the name of its class, the clause that catches
    it, its [args] (each as [format] renders it), the [lineno] attribute
    of a syntax error ([None] when absent) and its traceback, outermost
    frame first. *)
Record py_exception := {
  exc_name : str;
  exc_kind : exception_kind;
  exc_args : list str;
  exc_lineno : option N;
  exc_tb : list frame_summary
}.

Definition IndexError (msg : string) : py_exception :=
  {| exc_name := py "IndexError"; exc_kind := IsException;
     exc_args := [py msg]; exc_lineno := None; exc_tb := [] |}.

Definition FileNotFoundError (path : str) : py_exception :=
  {| exc_name := py "FileNotFoundError"; exc_kind := IsException;
     exc_args := [py "2"; py "No such file or directory"];
     exc_lineno := None; exc_tb := [] |}.

Definition str_eqb (a b : str) : bool := bool_decide (a = b).

Definition is_FileNotFoundError (e : py_exception) : bool :=
  str_eqb (exc_name e) (py "FileNotFoundError").

(** The files on disk, by path, and what has been printed to the console,
    one entry per [print].  A file is identified with the string of its
    path: two spellings of one location ([scripts/q1.py],
    [scripts/./q1.py]) count as two files, and directories are not
    represented. *)
Record world := { files : gmap str str; console : list str }.

Inductive result (A : Type) :=
| Ok (a : A) (w : world)
| Raise (e : py_exception) (w : world).
Arguments Ok {A} a w.
Arguments Raise {A} e w.

(** State and exceptions. *)
Definition M (A : Type) : Type := world -> result A.

Definition ret {A} (a : A) : M A := fun w => Ok a w.
Definition raise {A} (e : py_exception) : M A := fun w => Raise e w.
Definition bind {A B} (k : A -> M B) (m : M A) : M B :=
  fun w => match m w with
           | Ok a w' => k a w'
           | Raise e w' => Raise e w'
           end.

#[global] Instance M_ret : MRet M := @ret.
#[global] Instance M_bind : MBind M := @bind.

(** [os.remove(path)]. *)
Definition os_remove (path : str) : M unit :=
  fun w => match files w !! path with
           | Some _ => Ok tt {| files := delete path (files w); console := console w |}
           | None => Raise (FileNotFoundError path) w
           end.

(** [with suppress(FileNotFoundError): m]. *)
Definition suppress_FileNotFoundError (m : M unit) : M unit :=
  fun w => match m w with
           | Ok a w' => Ok a w'
           | Raise e w' => if is_FileNotFoundError e then Ok tt w' else Raise e w'
           end.

(** [with open(path, 'w') as f: f.write(text)], in a directory that
    exists and can be written: the [FileNotFoundError] or
    [PermissionError] that [open] raises otherwise is left out, so what
    follows speaks of runs in which the files can be written. *)
Definition write_file (path text : str) : M unit :=
  fun w => Ok tt {| files := <[path := text]> (files w); console := console w |}.

(** [print(text)]. *)
Definition print (text : str) : M unit :=
  fun w => Ok tt {| files := files w; console := console w ++ [text] |}.

(** ** Saving a script *)

Definition save_script (code id scripts_path : str) : M unit :=
  let script_path := OsPath.join scripts_path (id ++ py ".py") in
  write_file script_path code.

(** ** The executor *)

(** What [exec(code)] does under [redirect_stdout]: it completes, having
    written [stdout] to the redirected stream, or it raises. *)
Inductive exec_outcome :=
| Completed (stdout : str)
| Raised (e : py_exception).

(** The interpreter: the outcome of a snippet and its effect on the
    files.  The snippet is given its text and the files only: that it runs
    in the scope of [execute_code] and can read the variables there ([id],
    [save_output], the paths) is left out. *)
Definition interpreter : Type := str -> gmap str str -> exec_outcome * gmap str str.

(** The variables the two [except] clauses set. *)
Record classification := {
  error_class : str;
  detail : str;
  line_number : str
}.

Definition format_lineno (l : option N) : str :=
  match l with Some n => str_of_N n | None => py "None" end.

(** The body of the [except SyntaxError] clause. *)
Definition classify_syntax_error (err : py_exception) : M classification :=
  match exc_args err with
  | [] => raise (IndexError "tuple index out of range")
  | d :: _ =>
      ret {| error_class := exc_name err; detail := d;
             line_number := format_lineno (exc_lineno err) |}
  end.

(** The body of the [except Exception] clause. *)
Definition classify_exception (err : py_exception) : M classification :=
  match exc_args err with
  | [] => raise (IndexError "tuple index out of range")
  | d :: _ =>
      match exc_tb err with
      | _ :: fr :: _ =>
          ret {| error_class := exc_name err; detail := d;
                 line_number := str_of_N (fs_lineno fr) |}
      | _ => raise (IndexError "list index out of range")
      end
  end.

(** [with redirect_stdout(f): try: exec(code) except ...]: the captured
    output, or the classification of the error.  What the snippet prints
    goes to [f]; a snippet that writes past the redirection (to
    [sys.__stdout__] or to the file descriptor) is left out, so the console
    is carried over as it is. *)
Definition run_redirected (exec : interpreter) (code : str) : M (str + classification) :=
  fun w =>
    let '(o, fs') := exec code (files w) in
    let w' := {| files := fs'; console := console w |} in
    match o with
    | Completed out => Ok (inl out) w'
    | Raised err =>
        match exc_kind err with
        | IsSyntaxError => (c ← classify_syntax_error err; ret (inr c)) w'
        | IsException => (c ← classify_exception err; ret (inr c)) w'
        | IsBaseException => Raise err w'
        end
    end.

Definition error_desc (c : classification) : str :=
  error_class c ++ py " at line " ++ line_number c ++ py ": " ++ detail c.

Definition error_path (id execution_errors_path : str) : str :=
  OsPath.join execution_errors_path (id ++ py "_error.txt").

Definition output_path (id execution_outputs_path : str) : str :=
  OsPath.join execution_outputs_path (id ++ py "_output.txt").

Definition nonempty (s : str) : bool :=
  match s with [] => false | _ :: _ => true end.

Definition execute_code (exec : interpreter) (code : str) (save_output : bool)
    (id execution_outputs_path execution_errors_path : str) : M str :=
  (if save_output then
     suppress_FileNotFoundError (os_remove (error_path id execution_errors_path)) ;;
     suppress_FileNotFoundError (os_remove (output_path id execution_outputs_path))
   else ret tt) ;;
  r ← run_redirected exec code;
  match r with
  | inr c =>
      (if save_output
       then write_file (error_path id execution_errors_path) (error_desc c)
       else ret tt) ;;
      ret (error_desc c)
  | inl output =>
      (if (save_output && nonempty output)%bool
       then write_file (output_path id execution_outputs_path) output
       else ret tt) ;;
      ret output
  end.

(** ** The batch driver *)

(** The path constants of the configuration module [globals].  The
    module is not among the sources, so the constants are parameters. *)
Record globals := {
  DATASETS_PATH : str;
  SCRIPTS_PATH : str;
  OUPUT_IMAGES_PATH : str;
  EXECUTION_OUTPUTS_PATH : str;
  EXECUTION_ERRORS_PATH : str
}.

(** A row of a sheet, by the three configured columns; blank cells are
    read as empty strings ([keep_default_na=False]). *)
Record row := { ID_COLUMN : str; CODE_COLUMN : str; FILENAME_COLUMN : str }.

(** A sheet as [read_excel] returns it: its rows, and the text that
    printing its first twenty rows gives. *)
Record sheet := { sheet_head : str; sheet_rows : list row }.

Definition skip_message (row_number : nat) : str :=
  py "Skipping row " ++ str_of_N (N.of_nat row_number) ++ py " with no code.".

(** The body of the loop over the rows. *)
Definition process_row (exec : interpreter) (g : globals) (row_number : nat) (r : row) : M unit :=
  let id := ID_COLUMN r in
  let code_column := CODE_COLUMN r in
  let dataset_name := FILENAME_COLUMN r in
  if nonempty code_column then
    let code := get_code code_column in
    let code := update_dataset_local_path code dataset_name (DATASETS_PATH g) in
    let code := replace_show_with_savefig code id (OUPUT_IMAGES_PATH g) in
    save_script code id (SCRIPTS_PATH g) ;;
    execute_code exec code true id (EXECUTION_OUTPUTS_PATH g) (EXECUTION_ERRORS_PATH g) ;;
    ret tt
  else
    print (skip_message row_number).

Fixpoint process_rows (exec : interpreter) (g : globals) (row_number : nat) (rows : list row) : M unit :=
  match rows with
  | [] => ret tt
  | r :: rest =>
      process_row exec g row_number r ;;
      process_rows exec g (S row_number) rest
  end.

Fixpoint extract_and_save_scripts_from_sheets (exec : interpreter) (g : globals)
    (sheets : list sheet) : M unit :=
  match sheets with
  | [] => ret tt
  | sh :: rest =>
      print (sheet_head sh) ;;
      process_rows exec g 0 (sheet_rows sh) ;;
      extract_and_save_scripts_from_sheets exec g rest
  end.

(** ** Notions used in the statements *)

(** A text without line boundary. *)
Definition no_linebreak (s : list N) : Prop := Forall (fun c => is_linebreak c = false) s.

(** What follows a line boundary [c]: after CR a LF belongs to it. *)
Definition after_break (c : N) (t : list N) : list N :=
  match t with
  | c' :: t' => if (N.eqb c CR && N.eqb c' LF)%bool then t' else t
  | [] => t
  end.

(** The lines after the first line with a marker. *)
Fixpoint after_marker (lines : list (list N)) : list (list N) :=
  match lines with
  | [] => []
  | l :: rest => if contains marker l then rest else after_marker rest
  end.

(** A line the loop of the path rewriter passes over: no [.csv] on it, or
    nothing between its first and last quote. *)
Definition passed_over (line : list N) : Prop :=
  contains csv_ext line = false \/ wrong_path line = [].

(** A quote character, and a text with no quote character of either
    kind. *)
Definition is_quote (q : N) : Prop := q = 39%N \/ q = 34%N.

Definition unquoted (s : list N) : Prop := Forall (fun c => c <> 39%N /\ c <> 34%N) s.

(** The files as they are when [exec] starts. *)
Definition cleaned (save_output : bool)
    (id execution_outputs_path execution_errors_path : list N)
    (fs : gmap (list N) (list N)) : gmap (list N) (list N) :=
  if save_output
  then delete (output_path id execution_outputs_path)
         (delete (error_path id execution_errors_path) fs)
  else fs.

(** The script of a row: what the three steps make of the cell. *)
Definition script_of (g : globals) (r : row) : list N :=
  replace_show_with_savefig
    (update_dataset_local_path (get_code (CODE_COLUMN r)) (FILENAME_COLUMN r)
       (DATASETS_PATH g))
    (ID_COLUMN r) (OUPUT_IMAGES_PATH g).

(** What leaves [execute_code] when the snippet raises [err] with empty
    [args]: the [IndexError] of the clause that caught [err], or [err]
    itself when no clause catches it. *)
Definition propagated (err : py_exception) : py_exception :=
  match exc_kind err with
  | IsSyntaxError | IsException => IndexError "tuple index out of range"
  | IsBaseException => err
  end.

(** ** Sample inputs *)

(** Text given line by line, the lines separated by LF. *)
Definition text (lines : list (list N)) : list N := join [LF] lines.

(** The traceback of an exception raised on line [n] of executed code:
    the frame of the call of [exec], then the frame inside the code. *)
Definition traceback_at (n : N) : list frame_summary :=
  [ {| fs_filename := py "utils.py"; fs_lineno := 153 |};
    {| fs_filename := py "<string>"; fs_lineno := n |} ].

Definition ZeroDivisionError_at (n : N) : py_exception :=
  {| exc_name := py "ZeroDivisionError"; exc_kind := IsException;
     exc_args := [py "division by zero"]; exc_lineno := None;
     exc_tb := traceback_at n |}.

Definition ValueError_no_args_at (n : N) : py_exception :=
  {| exc_name := py "ValueError"; exc_kind := IsException;
     exc_args := []; exc_lineno := None; exc_tb := traceback_at n |}.

(** What the interpreter does with a few snippets: [print(1+1)] prints,
    [1/0] and [raise ValueError] raise on their first line, and the others
    (an assignment, the empty script) complete without output; none of
    them touches a file. *)
Definition sample_exec : interpreter := fun code fs =>
  if str_eqb code (py "print(1+1)") then (Completed (py "2" ++ [LF]), fs)
  else if str_eqb code (py "1/0") then (Raised (ZeroDivisionError_at 1), fs)
  else if str_eqb code (py "raise ValueError") then (Raised (ValueError_no_args_at 1), fs)
  else (Completed [], fs).

Definition sample_globals : globals :=
  {| DATASETS_PATH := py "data"; SCRIPTS_PATH := py "scripts";
     OUPUT_IMAGES_PATH := py "images"; EXECUTION_OUTPUTS_PATH := py "outputs";
     EXECUTION_ERRORS_PATH := py "errors" |}.

(** A disk without files, and one with the error file of an earlier run
    of [q1]. *)
Definition empty_world : world := {| files := ∅; console := [] |}.

Definition stale_world : world :=
  {| files := {[ py "errors/q1_error.txt" := py "NameError at line 1: name 'x' is not defined" ]};
     console := [] |}.

(** Rows: one with an empty cell, one whose cell holds text without a
    fenced block, one whose snippet raises without a message. *)
Definition row_empty : row :=
  {| ID_COLUMN := py "q1"; CODE_COLUMN := []; FILENAME_COLUMN := py "d.csv" |}.

Definition row_no_fence : row :=
  {| ID_COLUMN := py "q2"; CODE_COLUMN := py "I cannot answer that.";
     FILENAME_COLUMN := py "d.csv" |}.

Definition row_raise : row :=
  {| ID_COLUMN := py "q3";
     CODE_COLUMN := text [py "```python"; py "raise ValueError"; py "```"];
     FILENAME_COLUMN := py "d.csv" |}.

(** The response of the docstring of [get_code], and the same response
    cut off before the closing marker. *)
Definition response_fenced : list N :=
  text [py "Here is some text..."; py "```python";
        py "print('Hello, World!')"; py "``` More text..."].

Definition response_unterminated : list N :=
  text [py "Here is some text..."; py "```python"; py "print('Hello, World!')"].

(** Code for the display substituter. *)
Definition code_show : list N := py "fig.show()".


Definition code_comment : list N :=
  text [py "df = pd.read_csv('a.csv')"; py "# a.csv is remote"].

Definition code_no_quote : list N := py "# reads x.csv".

Definition code_two_datasets : list N :=
  text [py "a = pd.read_csv('a.csv')"; py "b = pd.read_csv('b.csv')"].

Definition code_local : list N :=
  text [py "import pandas as pd"; py "df = pd.read_csv('data/d.csv')"].

(** ** Further notions and sample inputs *)

(** The path [save_script] writes to. *)
Definition script_path (id scripts_path : list N) : list N :=
  OsPath.join scripts_path (id ++ py ".py").

(** The world a computation ends in, whether it returns or raises. *)
Definition world_of {A} (r : result A) : world :=
  match r with Ok _ w => w | Raise _ w => w end.

(** The line the loop of the path rewriter stops at: the first one with
    [.csv] and something between its quotes. *)
Fixpoint first_hit (lines : list (list N)) : option (list N) :=
  match lines with
  | [] => None
  | line :: rest =>
      if (contains csv_ext line && nonempty (wrong_path line))%bool
      then Some line else first_hit rest
  end.

(** Code with a comment that has [.csv] and a lone apostrophe, before a
    line that reads the dataset with a second quoted argument. *)
Definition code_separator : list N :=
  text [py "import pandas as pd"; py "# it's in a.csv";
        py "df = pd.read_csv('a.csv', sep=';')"].

(** Exceptions of snippets that fail in other ways: [if True] does not
    compile, and the syntax error comes with its own line number and the
    frame of the call of [exec] only; [raise SyntaxError('bad')] raises one
    without line number; a snippet with a NUL character is rejected with a
    message before it runs, again with one frame; [exit()] raises
    [SystemExit]. *)
Definition exec_frame : frame_summary :=
  {| fs_filename := py "utils.py"; fs_lineno := 153 |}.

Definition SyntaxError_missing_colon : py_exception :=
  {| exc_name := py "SyntaxError"; exc_kind := IsSyntaxError;
     exc_args := [py "expected ':'"]; exc_lineno := Some 1%N;
     exc_tb := [exec_frame] |}.

Definition SyntaxError_raised : py_exception :=
  {| exc_name := py "SyntaxError"; exc_kind := IsSyntaxError;
     exc_args := [py "bad"]; exc_lineno := None; exc_tb := traceback_at 1 |}.

Definition ValueError_null_bytes : py_exception :=
  {| exc_name := py "ValueError"; exc_kind := IsException;
     exc_args := [py "source code string cannot contain null bytes"];
     exc_lineno := None; exc_tb := [exec_frame] |}.

Definition SystemExit_raised : py_exception :=
  {| exc_name := py "SystemExit"; exc_kind := IsBaseException;
     exc_args := [py "None"]; exc_lineno := None; exc_tb := traceback_at 1 |}.

(** An interpreter for these snippets. *)
Definition failing_exec : interpreter := fun code fs =>
  if str_eqb code (py "if True") then (Raised SyntaxError_missing_colon, fs)
  else if str_eqb code (py "raise SyntaxError('bad')") then (Raised SyntaxError_raised, fs)
  else if str_eqb code [0%N] then (Raised ValueError_null_bytes, fs)
  else if str_eqb code (py "exit()") then (Raised SystemExit_raised, fs)
  else (Completed [], fs).

(** * Properties *)

(** ** Facts about the string operations *)

Section StringFacts.

Implicit Types (s t p old new sub : list N) (c : N).

Lemma startswith_app p s : startswith p (p ++ s) = true.
Proof.
  induction p as [|a p IH]; simpl; [done|].
  by rewrite N.eqb_refl, IH.
Qed.

Lemma startswith_inv p s : startswith p s = true -> s = p ++ drop (length p) s.
Proof.
  revert s; induction p as [|a p IH]; intros [|b s]; simpl; try done.
  intros [Hab Hps]%andb_prop. apply N.eqb_eq in Hab as ->.
  f_equal. by apply IH.
Qed.

Lemma startswith_length p s : startswith p s = true -> (length p <= length s)%nat.
Proof.
  intros H%startswith_inv. rewrite H, length_app. lia.
Qed.

Lemma startswith_refl s : startswith s s = true.
Proof. rewrite <- (app_nil_r s) at 2. apply startswith_app. Qed.

(** A character that does not occur in [p] cuts every attempt to match
    [p] across it. *)
Lemma startswith_app_cut p s c t :
  c ∉ p -> startswith p (s ++ c :: t) = startswith p s.
Proof.
  revert s; induction p as [|a p IH]; intros s Hc; [by destruct s|].
  apply not_elem_of_cons in Hc as [Hca Hcp].
  destruct s as [|b s]; simpl.
  - destruct (N.eqb_spec a c); [congruence|done].
  - by rewrite IH.
Qed.

Lemma contains_nil_l s : contains [] s = true.
Proof. by destruct s. Qed.

Lemma contains_cons sub c s :
  contains sub (c :: s) = (startswith sub (c :: s) || contains sub s)%bool.
Proof. done. Qed.

Lemma contains_app_r sub s t : contains sub t = true -> contains sub (s ++ t) = true.
Proof.
  intros H. induction s as [|c s IH]; [done|].
  simpl app. rewrite contains_cons, IH. apply orb_true_r.
Qed.

Lemma contains_refl s : contains s s = true.
Proof. destruct s; simpl; [done|]. by rewrite N.eqb_refl, startswith_refl. Qed.

Lemma startswith_app_l p s t : startswith p s = true -> startswith p (s ++ t) = true.
Proof.
  intros H%startswith_inv. rewrite H, <- app_assoc. apply startswith_app.
Qed.

Lemma contains_app_l sub s t : contains sub s = true -> contains sub (s ++ t) = true.
Proof.
  induction s as [|c s IH]; simpl.
  - rewrite orb_false_r. destruct sub; [|done]. intros _. apply contains_nil_l.
  - intros [H|H]%orb_prop.
    + change (c :: s ++ t) with ((c :: s) ++ t).
      by rewrite (startswith_app_l _ _ t H).
    + rewrite (IH H). apply orb_true_r.
Qed.

(** [sub in s] holds exactly when [s] is [a + sub + b] for some [a], [b]. *)
Lemma contains_spec sub s :
  contains sub s = true <-> exists a b, s = a ++ sub ++ b.
Proof.
  split.
  - induction s as [|c s IH]; simpl.
    + rewrite orb_false_r. intros H%startswith_inv. by exists [], (drop (length sub) []).
    + intros [H|H]%orb_prop.
      * apply startswith_inv in H. by exists [], (drop (length sub) (c :: s)).
      * destruct (IH H) as (a & b & ->). by exists (c :: a), b.
  - intros (a & b & ->). apply contains_app_r, contains_app_l, contains_refl.
Qed.

Lemma contains_trans s1 s2 s3 :
  contains s1 s2 = true -> contains s2 s3 = true -> contains s1 s3 = true.
Proof.
  rewrite !contains_spec. intros (a & b & ->) (a' & b' & ->).
  exists (a' ++ a), (b ++ b'). by rewrite <- !app_assoc.
Qed.

(** A separator that does not occur in [sub] splits the search. *)
Lemma contains_app_cut sub s c t :
  sub <> [] -> c ∉ sub ->
  contains sub (s ++ c :: t) = (contains sub s || contains sub (c :: t))%bool.
Proof.
  intros Hne Hc. induction s as [|b s IH].
  - simpl app. destruct sub; [done|]. done.
  - simpl app. rewrite !contains_cons, IH.
    change (b :: s ++ c :: t) with ((b :: s) ++ c :: t).
    rewrite startswith_app_cut by done. by rewrite orb_assoc.
Qed.

(** *** [replace] *)

Lemma replace_scan_skip old new k s :
  replace_scan old new k s = replace_scan old new 0 (drop k s).
Proof.
  revert k; induction s as [|c s IH]; intros [|k]; simpl; done.
Qed.

Lemma replace_nil old new : replace [] (old) new = match old with [] => new | _ => [] end.
Proof. destruct old; simpl; [by rewrite app_nil_r|done]. Qed.

(** At an occurrence, [new] is emitted and the scan resumes behind it. *)
Lemma replace_match old new s :
  old <> [] -> replace (old ++ s) old new = new ++ replace s old new.
Proof.
  destruct old as [|a old]; [done|]. intros _. unfold replace.
  change ((a :: old) ++ s) with (a :: (old ++ s)).
  cbn [replace_scan].
  change (a :: old ++ s) with ((a :: old) ++ s).
  rewrite startswith_app. f_equal.
  rewrite replace_scan_skip. cbn [length]. rewrite Nat.sub_1_r. cbn [Nat.pred].
  by rewrite drop_app_length.
Qed.

(** Elsewhere the character is copied. *)
Lemma replace_skip old new c s :
  old <> [] -> startswith old (c :: s) = false ->
  replace (c :: s) old new = c :: replace s old new.
Proof.
  destruct old as [|a old]; [done|]. intros _ H. unfold replace.
  cbn [replace_scan]. by rewrite H.
Qed.

(** The two equations give an induction principle that follows the scan. *)
Lemma replace_ind old :
  old <> [] ->
  forall P : list N -> Prop,
  P [] ->
  (forall c s, startswith old (c :: s) = false -> P s -> P (c :: s)) ->
  (forall s, P s -> P (old ++ s)) ->
  forall s, P s.
Proof.
  intros Hne P Hnil Hskip Hmatch s.
  remember (length s) as n eqn:Hn. revert s Hn.
  induction n as [n IH] using lt_wf_ind. intros [|c s] Hn; [done|].
  destruct (startswith old (c :: s)) eqn:Hs.
  - apply startswith_inv in Hs. rewrite Hs. apply Hmatch.
    apply (IH (length (drop (length old) (c :: s)))); [|done].
    subst n. rewrite length_drop. destruct old; [done|]. simpl. lia.
  - apply Hskip; [done|]. apply (IH (length s)); [subst n; simpl; lia|done].
Qed.

(** Replacing a string by itself changes nothing. *)
Lemma replace_same s old : old <> [] -> replace s old old = s.
Proof.
  intros Hne. induction s as [| c s Hs IH | s IH] using (replace_ind old Hne); try done.
  - by rewrite replace_nil; destruct old.
  - by rewrite replace_skip, IH.
  - by rewrite replace_match, IH.
Qed.

(** Without an occurrence there is nothing to replace. *)
Lemma replace_absent s old new : contains old s = false -> replace s old new = s.
Proof.
  intros H. assert (old <> []) as Hne by (intros ->; by rewrite contains_nil_l in H).
  induction s as [|c s IH]; [by rewrite replace_nil; destruct old|].
  rewrite contains_cons in H. apply orb_false_elim in H as [H1 H2].
  by rewrite replace_skip, IH.
Qed.

(** The whole string is one occurrence. *)
Lemma replace_self old new : old <> [] -> replace old old new = new.
Proof.
  intros Hne. rewrite <- (app_nil_r old) at 1.
  rewrite replace_match by done. rewrite replace_nil. destruct old; [done|].
  apply app_nil_r.
Qed.

(** A separator that does not occur in [old] splits the replacement. *)
Lemma replace_app_cut s c t old new :
  old <> [] -> c ∉ old ->
  replace (s ++ c :: t) old new = replace s old new ++ c :: replace t old new.
Proof.
  intros Hne Hc.
  induction s as [| b s Hs IH | s IH] using (replace_ind old Hne); try done.
  - simpl app. rewrite replace_nil. destruct old as [|a old]; [done|].
    rewrite replace_skip; [done..|].
    apply not_elem_of_cons in Hc as [Hc _].
    simpl. destruct (N.eqb_spec a c); [congruence|done].
  - change ((b :: s) ++ c :: t) with (b :: (s ++ c :: t)).
    rewrite replace_skip, IH; [|done|].
    + by rewrite (replace_skip _ _ _ _ Hne Hs).
    + change (b :: s ++ c :: t) with ((b :: s) ++ c :: t).
      by rewrite startswith_app_cut.
  - rewrite <- app_assoc, !replace_match, IH by done. by rewrite <- app_assoc.
Qed.

(** The characters of the result come from the source or from [new]. *)
Lemma replace_Forall (P : N -> Prop) s old new :
  old <> [] -> Forall P s -> Forall P new -> Forall P (replace s old new).
Proof.
  intros Hne Hs Hnew. revert Hs.
  induction s as [| c s Hc IH | s IH] using (replace_ind old Hne).
  - by rewrite replace_nil; destruct old.
  - intros [Hp Hs]%Forall_cons. rewrite replace_skip by done.
    constructor; [done|by apply IH].
  - intros [_ Hs]%Forall_app. rewrite replace_match by done.
    apply Forall_app. split; [done|by apply IH].
Qed.

Lemma replace_nonempty s old new :
  old <> [] -> s <> [] -> new <> [] -> replace s old new <> [].
Proof.
  intros Hne Hs Hnew. destruct s as [|c s]; [done|].
  destruct (startswith old (c :: s)) eqn:Hc.
  - rewrite (startswith_inv _ _ Hc), replace_match by done. by destruct new.
  - by rewrite replace_skip.
Qed.

(** *** [splitlines] *)

Lemma no_linebreak_not_elem c s : is_linebreak c = true -> no_linebreak s -> c ∉ s.
Proof.
  intros Hc Hs Hin. unfold no_linebreak in Hs. rewrite Forall_forall in Hs.
  specialize (Hs c Hin). congruence.
Qed.

Lemma splitlines_nil_inv s : splitlines s = [] -> s = [].
Proof.
  destruct s as [|c t]; [done|]. simpl.
  destruct (is_linebreak c); [done|]. by destruct (splitlines t).
Qed.

(** Characters that are no line boundaries stay on the first line. *)
Lemma splitlines_app_line s t :
  no_linebreak s ->
  splitlines (s ++ t) =
  match splitlines t with
  | [] => if is_nil s then [] else [s]
  | l :: ls => (s ++ l) :: ls
  end.
Proof.
  induction 1 as [|c s Hc Hs IH].
  - simpl. by destruct (splitlines t).
  - change ((c :: s) ++ t) with (c :: (s ++ t)). cbn [splitlines]. rewrite Hc, IH.
    destruct (splitlines t); [by destruct s|done].
Qed.

(** The first line is the text up to the first line boundary. *)
Lemma splitlines_head s l ls :
  splitlines s = l :: ls ->
  s = l \/ exists c t, is_linebreak c = true /\ s = l ++ c :: t.
Proof.
  revert l ls. induction s as [|c s IH]; intros l ls; [done|].
  cbn [splitlines]. destruct (is_linebreak c) eqn:Hc.
  - intros [= <- _]. right. by exists c, s.
  - destruct (splitlines s) as [|l' ls'] eqn:Hs.
    + intros [= <- _]. left. by rewrite (splitlines_nil_inv _ Hs).
    + intros [= <- _]. destruct (IH l' ls' eq_refl) as [-> | (c' & t & Hc' & ->)].
      * by left.
      * right. by exists c', t.
Qed.

Lemma splitlines_no_linebreak s : Forall no_linebreak (splitlines s).
Proof.
  remember (length s) as n eqn:Hn. revert s Hn.
  induction n as [n IH] using lt_wf_ind. intros [|c s] Hn; [constructor|].
  cbn [splitlines]. destruct (is_linebreak c) eqn:Hc.
  - constructor; [constructor|].
    destruct s as [|c' s]; [constructor|].
    destruct (N.eqb c CR && N.eqb c' LF)%bool.
    + apply (IH (length s)); [subst n; simpl; lia|done].
    + apply (IH (length (c' :: s))); [subst n; simpl; lia|done].
  - assert (Forall no_linebreak (splitlines s)) as H
      by (apply (IH (length s)); [subst n; simpl; lia|done]).
    destruct (splitlines s) as [|l ls]; [by repeat constructor|].
    apply Forall_cons in H as [Hl Hls]. constructor; [by constructor|done].
Qed.

(** A replacement that neither removes nor adds a line boundary acts line
    by line. *)
Lemma splitlines_replace s old new :
  old <> [] -> no_linebreak old -> new <> [] -> no_linebreak new ->
  splitlines (replace s old new) = (fun l => replace l old new) <$> splitlines s.
Proof.
  intros Hne Hold Hnew Hnl.
  remember (length s) as n eqn:Hn. revert s Hn.
  induction n as [n IH] using lt_wf_ind. intros [|c s] Hn.
  { by rewrite replace_nil; destruct old. }
  destruct (startswith old (c :: s)) eqn:Hs.
  - (* an occurrence at the head *)
    apply startswith_inv in Hs. set (r := drop (length old) (c :: s)) in *.
    assert (splitlines (replace r old new) = (fun l => replace l old new) <$> splitlines r) as IHr.
    { apply (IH (length r)); [|done]. subst n r. rewrite length_drop.
      destruct old; [done|]. simpl. lia. }
    rewrite Hs, replace_match by done.
    rewrite !splitlines_app_line, IHr by done.
    destruct (splitlines r) as [|l ls]; simpl.
    + replace (is_nil new) with false by (by destruct new).
      replace (is_nil old) with false by (by destruct old).
      cbn [fmap list_fmap]. by rewrite replace_self.
    + by rewrite replace_match.
  - rewrite replace_skip by done.
    assert (splitlines (replace s old new) = (fun l => replace l old new) <$> splitlines s) as IHs.
    { apply (IH (length s)); [subst n; simpl; lia|done]. }
    cbn [splitlines]. destruct (is_linebreak c) eqn:Hc.
    + (* a line boundary *)
      rewrite fmap_cons. f_equal; [by rewrite replace_nil; destruct old|].
      destruct s as [|c' s]; [by rewrite replace_nil; destruct old|].
      destruct (N.eqb c CR && N.eqb c' LF)%bool eqn:Hcrlf.
      * apply andb_prop in Hcrlf as [->%N.eqb_eq ->%N.eqb_eq].
        rewrite replace_skip; [|done|].
        -- rewrite !N.eqb_refl. cbn [andb].
           apply (IH (length s)); [subst n; simpl; lia|done].
        -- destruct old as [|a old]; [done|]. apply Forall_cons in Hold as [Ha _].
           simpl. destruct (N.eqb_spec a LF) as [->|]; [done|done].
      * rewrite <- IHs. destruct (replace (c' :: s) old new) as [|c'' s''] eqn:Hr; [done|].
        destruct (N.eqb c CR && N.eqb c'' LF)%bool eqn:Hcrlf'; [|done].
        apply andb_prop in Hcrlf' as [Hcr ->%N.eqb_eq]. rewrite Hcr in Hcrlf.
        simpl in Hcrlf. exfalso.
        destruct (startswith old (c' :: s)) eqn:Hs'.
        -- rewrite (startswith_inv _ _ Hs'), replace_match in Hr by done.
           destruct new as [|d new]; [done|]. injection Hr as -> _.
           by apply Forall_cons in Hnl as [Hd _].
        -- rewrite replace_skip in Hr by done. injection Hr as -> _.
           by rewrite N.eqb_refl in Hcrlf.
    + (* a character of the first line *)
      rewrite IHs. destruct (splitlines s) as [|l ls] eqn:Hl; simpl.
      * rewrite (splitlines_nil_inv _ Hl) in Hs. rewrite replace_skip by done.
        by rewrite replace_nil; destruct old.
      * f_equal. rewrite replace_skip; [done..|].
        destruct (splitlines_head _ _ _ Hl) as [<- | (c' & t & Hc' & ->)]; [done|].
        change (c :: l ++ c' :: t) with ((c :: l) ++ c' :: t) in Hs.
        rewrite startswith_app_cut in Hs; [done|].
        by apply no_linebreak_not_elem.
Qed.

Lemma splitlines_break c t :
  is_linebreak c = true -> splitlines (c :: t) = [] :: splitlines (after_break c t).
Proof.
  intros Hc. cbn [splitlines]. rewrite Hc. unfold after_break.
  destruct t as [|c' t']; [done|]. by destruct (N.eqb c CR && N.eqb c' LF)%bool.
Qed.

Lemma after_break_suffix c t : exists p, t = p ++ after_break c t.
Proof.
  unfold after_break. destruct t as [|c' t']; [by exists []|].
  destruct (N.eqb c CR && N.eqb c' LF)%bool; [by exists [c']|by exists []].
Qed.

Lemma after_break_app c t d s :
  is_linebreak d = false -> after_break c (t ++ d :: s) = after_break c t ++ d :: s.
Proof.
  intros Hd. unfold after_break. destruct t as [|c' t']; simpl.
  - destruct (N.eqb_spec d LF) as [->|]; [done|]. by rewrite andb_false_r.
  - by destruct (N.eqb c CR && N.eqb c' LF)%bool.
Qed.

(** A text is one line, or a first line, a boundary and the rest. *)
Lemma first_line_split s :
  no_linebreak s \/
  exists l c t, s = l ++ c :: t /\ no_linebreak l /\ is_linebreak c = true.
Proof.
  induction s as [|c s IH]; [left; constructor|].
  destruct (is_linebreak c) eqn:Hc.
  - right. exists [], c, s. split; [done|]. split; [constructor|done].
  - destruct IH as [H | (l & c' & t & -> & Hl & Hc')].
    + left. by constructor.
    + right. exists (c :: l), c', t. repeat split; [|done]. by constructor.
Qed.

(** Every line is a piece of the text. *)
Lemma splitlines_contained s : Forall (fun l => contains l s = true) (splitlines s).
Proof.
  remember (length s) as n eqn:Hn. revert s Hn.
  induction n as [n IH] using lt_wf_ind. intros s Hn.
  destruct (first_line_split s) as [H | (l & c & t & -> & Hl & Hc)].
  - assert (splitlines s = if is_nil s then [] else [s]) as ->.
    { rewrite <- (app_nil_r s) at 1. by rewrite splitlines_app_line. }
    destruct s; simpl is_nil; cbv iota; [constructor|].
    constructor; [|constructor]. apply contains_refl.
  - rewrite splitlines_app_line, splitlines_break, app_nil_r by done.
    constructor; [apply contains_app_l, contains_refl|].
    destruct (after_break_suffix c t) as [p Hp].
    assert (Forall (fun x => contains x (after_break c t) = true)
              (splitlines (after_break c t))) as H.
    { apply (IH (length (after_break c t))); [|done]. subst n.
      rewrite length_app. simpl. rewrite Hp at 2. rewrite length_app. lia. }
    eapply Forall_impl; [exact H|]. intros x Hx. cbv beta in Hx.
    rewrite Hp. change (c :: p ++ after_break c t) with ([c] ++ p ++ after_break c t).
    by do 3 apply contains_app_r.
Qed.

(** The lines of [s ++ t], when [t] does not begin with a line boundary:
    whole lines of [s], then the end of [s] with the first line of [t],
    then the other lines of [t]. *)
Lemma splitlines_app_mid s d t :
  is_linebreak d = false ->
  exists pre l,
    splitlines (s ++ d :: t) =
      pre ++ (l ++ hd [] (splitlines (d :: t))) :: tl (splitlines (d :: t)) /\
    Forall (fun x => contains x s = true) pre /\
    contains l s = true.
Proof.
  intros Hd. remember (length s) as n eqn:Hn. revert s Hn.
  induction n as [n IH] using lt_wf_ind. intros s Hn.
  assert (splitlines (d :: t) <> []) as Hy.
  { cbn [splitlines]. rewrite Hd. by destruct (splitlines t). }
  destruct (first_line_split s) as [H | (l & c & s' & -> & Hl & Hc)].
  - exists [], s. rewrite splitlines_app_line by done.
    destruct (splitlines (d :: t)); [done|].
    repeat split; [constructor|apply contains_refl].
  - destruct (after_break_suffix c s') as [p Hp].
    destruct (IH (length (after_break c s'))) with (s := after_break c s')
      as (pre & l' & Heq & Hpre & Hl'); [|done|].
    { subst n. rewrite length_app. simpl. rewrite Hp at 2. rewrite length_app. lia. }
    assert (forall x, contains x (after_break c s') = true ->
                      contains x (l ++ c :: s') = true) as Hsub.
    { intros x Hx. rewrite Hp.
      change (c :: p ++ after_break c s') with ([c] ++ p ++ after_break c s').
      by do 3 apply contains_app_r. }
    exists (l :: pre), l'. split; [|split].
    + rewrite <- app_assoc. change ((c :: s') ++ d :: t) with (c :: (s' ++ d :: t)).
      rewrite splitlines_app_line, splitlines_break, app_nil_r by done.
      by rewrite after_break_app, Heq.
    + constructor; [apply contains_app_l, contains_refl|].
      eapply Forall_impl; [exact Hpre|]. intros x Hx. by apply Hsub.
    + by apply Hsub.
Qed.

(** *** [count] *)

Lemma count_scan_skip sub k s : count_scan sub k s = count_scan sub 0 (drop k s).
Proof.
  revert k; induction s as [|c s IH]; intros [|k]; simpl; done.
Qed.

Lemma count_match sub s : sub <> [] -> count sub (sub ++ s) = S (count sub s).
Proof.
  destruct sub as [|a sub]; [done|]. intros _. unfold count.
  change ((a :: sub) ++ s) with (a :: (sub ++ s)). cbn [count_scan].
  change (a :: sub ++ s) with ((a :: sub) ++ s).
  rewrite startswith_app. f_equal.
  rewrite count_scan_skip. cbn [length]. rewrite Nat.sub_1_r. cbn [Nat.pred].
  by rewrite drop_app_length.
Qed.

Lemma count_skip sub c s :
  sub <> [] -> startswith sub (c :: s) = false -> count sub (c :: s) = count sub s.
Proof.
  destruct sub as [|a sub]; [done|]. intros _ H. unfold count.
  cbn [count_scan]. by rewrite H.
Qed.

Lemma count_zero sub s : sub <> [] -> count sub s = 0%nat -> contains sub s = false.
Proof.
  intros Hne. induction s as [| c s Hc IH | s IH] using (replace_ind sub Hne).
  - intros _. by destruct sub.
  - rewrite count_skip by done. intros H. by rewrite contains_cons, Hc, IH.
  - by rewrite count_match.
Qed.

(** A single occurrence splits the text into two parts without one. *)
Lemma count_one sub s :
  sub <> [] -> count sub s = 1%nat ->
  exists s1 s2, s = s1 ++ sub ++ s2 /\
                contains sub s1 = false /\ contains sub s2 = false.
Proof.
  intros Hne. induction s as [| c s Hc IH | s IH] using (replace_ind sub Hne).
  - by destruct sub.
  - rewrite count_skip by done. intros H.
    destruct (IH H) as (s1 & s2 & -> & H1 & H2). exists (c :: s1), s2.
    repeat split; [|done]. rewrite contains_cons, H1, orb_false_r.
    destruct (startswith sub (c :: s1)) eqn:E; [|done].
    change (c :: s1 ++ sub ++ s2) with ((c :: s1) ++ sub ++ s2) in Hc.
    by rewrite (startswith_app_l _ _ _ E) in Hc.
  - rewrite count_match by done. intros [= H]. exists [], s.
    repeat split; [by destruct sub|by apply count_zero].
Qed.

(** *** [join] *)

Lemma join_cons sep p ps :
  ps <> [] -> join sep (p :: ps) = p ++ sep ++ join sep ps.
Proof. by destruct ps. Qed.

Lemma join_snoc sep ps p :
  ps <> [] -> join sep (ps ++ [p]) = join sep ps ++ sep ++ p.
Proof.
  induction ps as [|q ps IH]; [done|]. intros _.
  destruct ps as [|q' ps]; [done|].
  change ((q :: q' :: ps) ++ [p]) with (q :: ((q' :: ps) ++ [p])).
  rewrite join_cons by done. rewrite IH by done.
  rewrite (join_cons _ q (q' :: ps)) by done.
  by rewrite <- !app_assoc.
Qed.

End StringFacts.

(** ** The code extractor *)

Section GetCode.

Implicit Types (line code : list N) (lines pre body rest : list (list N)).

(** Before the opening marker every line is passed over. *)
Lemma get_code_loop_before pre rest code fl :
  Forall (fun l => contains marker l = false) pre ->
  get_code_loop (pre ++ rest) code false fl = get_code_loop rest code false fl.
Proof.
  induction 1 as [|l pre Hl _ IH]; [done|].
  simpl. by rewrite Hl.
Qed.

(** The line of the opening marker switches to accumulation. *)
Lemma get_code_loop_open line rest code fl :
  contains marker line = true ->
  get_code_loop (line :: rest) code false fl = get_code_loop rest code true true.
Proof. intros H. simpl. by rewrite H. Qed.

(** Inside the block the lines seen so far are kept joined by LF, and
    [is_first_line] holds as long as there is none. *)
Lemma get_code_loop_inside seen body rest :
  Forall (fun l => contains marker l = false) body ->
  get_code_loop (body ++ rest) (join [LF] seen) true (is_nil seen) =
  get_code_loop rest (join [LF] (seen ++ body)) true (is_nil (seen ++ body)).
Proof.
  intros H. revert seen. induction H as [|l body Hl _ IH]; intros seen.
  - by rewrite app_nil_r.
  - simpl. rewrite Hl. simpl.
    replace (join [LF] seen ++ (if is_nil seen then [] else [LF]) ++ l)
      with (join [LF] (seen ++ [l])).
    + replace false with (is_nil (seen ++ [l])) by (by destruct seen).
      rewrite IH. by rewrite <- app_assoc.
    + destruct seen as [|l0 seen]; [done|].
      by rewrite join_snoc.
Qed.

(** The line of the next marker ends the loop. *)
Lemma get_code_loop_close line rest code fl :
  contains marker line = true ->
  get_code_loop (line :: rest) code true fl = code.
Proof. intros H. simpl. by rewrite H. Qed.

(** C5: for an input whose lines are a prefix without marker, a line with
    the opening marker, the lines of BODY, a line with the next marker and
    any suffix, [get_code] returns exactly the lines of BODY joined by LF:
    the line of the opening marker is left out together with its language
    tag, and no newline follows the last line. *)
Theorem get_code_fenced (s : list N) pre (open_line : list N) body (close_line : list N) rest :
  splitlines s = pre ++ open_line :: body ++ close_line :: rest ->
  Forall (fun l => contains marker l = false) pre ->
  contains marker open_line = true ->
  Forall (fun l => contains marker l = false) body ->
  contains marker close_line = true ->
  get_code s = join [LF] body.
Proof.
  intros Hs Hpre Hopen Hbody Hclose. unfold get_code. rewrite Hs.
  rewrite get_code_loop_before, get_code_loop_open by done.
  rewrite (get_code_loop_inside [] body) by done.
  by rewrite get_code_loop_close.
Qed.

Lemma get_code_fenced_witness :
  get_code response_fenced = py "print('Hello, World!')".
Proof.
  apply (get_code_fenced response_fenced [py "Here is some text..."]
           (py "```python") [py "print('Hello, World!')"] (py "``` More text...") []).
  - reflexivity.
  - repeat constructor.
  - reflexivity.
  - repeat constructor.
  - reflexivity.
Defined.

(** Without a second marker line the loop runs to the end of the input
    and keeps every line after the opening one. *)
Lemma get_code_loop_unterminated pre (open_line : list N) body :
  Forall (fun l => contains marker l = false) pre ->
  contains marker open_line = true ->
  Forall (fun l => contains marker l = false) body ->
  get_code_loop (pre ++ open_line :: body) [] false false = join [LF] body.
Proof.
  intros Hpre Hopen Hbody.
  rewrite get_code_loop_before, get_code_loop_open by done.
  rewrite <- (app_nil_r body) at 1.
  by rewrite (get_code_loop_inside [] body).
Qed.

Lemma after_marker_app pre (open_line : list N) body :
  Forall (fun l => contains marker l = false) pre ->
  contains marker open_line = true ->
  after_marker (pre ++ open_line :: body) = body.
Proof.
  intros Hpre Hopen. induction Hpre as [|l pre Hl _ IH]; simpl.
  - by rewrite Hopen.
  - by rewrite Hl.
Qed.

(** A text with one marker has one line with a marker. *)
Lemma one_marker_lines (s : list N) :
  count marker s = 1%nat ->
  exists pre open_line body,
    splitlines s = pre ++ open_line :: body /\
    Forall (fun l => contains marker l = false) pre /\
    contains marker open_line = true /\
    Forall (fun l => contains marker l = false) body.
Proof.
  intros H. destruct (count_one marker s) as (s1 & s2 & -> & H1 & H2); [done..|].
  assert (forall t x, contains marker t = false -> contains x t = true ->
                      contains marker x = false) as Hsub.
  { intros t x Ht Hx. destruct (contains marker x) eqn:E; [|done].
    by rewrite (contains_trans _ _ _ E Hx) in Ht. }
  change (marker ++ s2) with (96%N :: ([96; 96]%N ++ s2)).
  destruct (splitlines_app_mid s1 96%N ([96; 96]%N ++ s2)) as (pre & l & -> & Hpre & Hl);
    [done|].
  change (96%N :: ([96; 96]%N ++ s2)) with (marker ++ s2).
  exists pre, (l ++ hd [] (splitlines (marker ++ s2))), (tl (splitlines (marker ++ s2))).
  split; [done|]. split; [|split].
  - eapply Forall_impl; [exact Hpre|]. intros x Hx. by apply (Hsub s1).
  - apply contains_app_r. rewrite splitlines_app_line by (by repeat constructor).
    destruct (splitlines s2); cbn [hd]; [done|]. apply contains_app_l, contains_refl.
  - rewrite splitlines_app_line by (by repeat constructor).
    pose proof (splitlines_contained s2) as Hc.
    destruct (splitlines s2) as [|l2 ls2]; simpl; [constructor|].
    apply Forall_cons in Hc as [_ Hc].
    eapply Forall_impl; [exact Hc|]. intros x Hx. by apply (Hsub s2).
Qed.

(** C1, as the code has it: for an input with exactly one marker, the
    loop never meets a closing marker, runs to the end of the input, and
    [get_code] returns every line after the line of the marker, joined by
    LF. *)
Theorem get_code_unterminated (s : list N) :
  count marker s = 1%nat ->
  get_code s = join [LF] (after_marker (splitlines s)).
Proof.
  intros H. destruct (one_marker_lines s H) as (pre & l & body & Hs & Hpre & Hl & Hbody).
  unfold get_code. rewrite Hs, after_marker_app by done.
  by apply get_code_loop_unterminated.
Qed.

Lemma get_code_unterminated_witness :
  get_code response_unterminated = py "print('Hello, World!')".
Proof.
  rewrite (get_code_unterminated response_unterminated); reflexivity.
Defined.

(** C1, as stated, fails: the unterminated response holds exactly one
    marker, and the extraction is not empty. *)
Lemma get_code_unterminated_not_empty :
  count marker response_unterminated = 1%nat /\
  get_code response_unterminated <> [].
Proof. split; [reflexivity | discriminate]. Qed.

End GetCode.

(** ** The display substituter *)

Section ReplaceShow.

Implicit Types (s p old new code id : list N) (c d : N).

(** What the result of a replacement starts with, the source started
    with, as long as the first character of [new] is not met. *)
Lemma startswith_replace_back p s old d new :
  old <> [] -> d ∉ p ->
  startswith p (replace s old (d :: new)) = true -> startswith p s = true.
Proof.
  intros Hne. revert s. induction p as [|a p IH]; intros s Hd; [by destruct s|].
  apply not_elem_of_cons in Hd as [Hda Hdp].
  destruct s as [|c s]; [by rewrite replace_nil; destruct old|].
  destruct (startswith old (c :: s)) eqn:Hs.
  - rewrite (startswith_inv _ _ Hs), replace_match by done. simpl.
    destruct (N.eqb_spec a d); [congruence|done].
  - rewrite replace_skip by done. simpl.
    intros [-> Hp]%andb_prop. by rewrite (IH s Hdp Hp).
Qed.

Lemma startswith_cons_replace_back a p c s old d new :
  old <> [] -> d ∉ p ->
  startswith (a :: p) (c :: replace s old (d :: new)) = true ->
  startswith (a :: p) (c :: s) = true.
Proof.
  intros Hne Hd. cbn [startswith]. intros [-> Hp]%andb_prop.
  by rewrite (startswith_replace_back _ _ _ _ _ Hne Hd Hp).
Qed.

Lemma contains_cons_ne a sub c s :
  a <> c -> contains (a :: sub) (c :: s) = contains (a :: sub) s.
Proof.
  intros Hac. rewrite contains_cons. simpl startswith.
  destruct (N.eqb_spec a c); [congruence|done].
Qed.

(** No [.show()] begins inside the inserted call, unless the image path
    holds one. *)
Lemma contains_show_savefig image_path s :
  contains show_call image_path = false ->
  contains show_call (savefig_call image_path ++ s) = contains show_call s.
Proof.
  intros Hpath. unfold savefig_call. rewrite <- !app_assoc.
  change (py ".savefig(" ++ double_quote ++ image_path ++ double_quote ++ py ")" ++ s)
    with (46 :: 115 :: 97 :: 118 :: 101 :: 102 :: 105 :: 103 :: 40 :: 34 ::
          (image_path ++ 34 :: 41 :: s))%N.
  change show_call with [46; 115; 104; 111; 119; 40; 41]%N in *.
  rewrite contains_cons. simpl startswith. rewrite orb_false_l.
  do 9 (rewrite contains_cons_ne by done).
  rewrite contains_app_cut, Hpath; [|done|].
  - rewrite orb_false_l. by do 2 (rewrite contains_cons_ne by done).
  - rewrite !not_elem_of_cons. repeat split; try done. apply not_elem_of_nil.
Qed.

(** After the replacement no [.show()] is left. *)
Lemma replace_show_clean image_path s :
  contains show_call image_path = false ->
  contains show_call (replace s show_call (savefig_call image_path)) = false.
Proof.
  intros Hpath. assert (show_call <> []) as Hne by done.
  induction s as [| c s Hs IH | s IH] using (replace_ind show_call Hne).
  - done.
  - rewrite replace_skip by done. rewrite contains_cons, IH, orb_false_r.
    destruct (startswith show_call (c :: replace s _ _)) eqn:Hc; [|done].
    rewrite <- Hs. symmetry.
    apply (startswith_cons_replace_back 46%N (py "show()") c s show_call 46%N
             (py "savefig(" ++ double_quote ++ image_path ++ double_quote ++ py ")"));
      [done| |exact Hc].
    vm_compute py. rewrite !not_elem_of_cons.
    repeat split; try done. apply not_elem_of_nil.
  - rewrite replace_match by done. by rewrite contains_show_savefig.
Qed.

End ReplaceShow.

(** C8, as the code has it: the result is [code.replace] of every
    [.show()] by the [savefig] call on [os.path.join] of the images
    directory and [id + '.png'] when the code holds the token, and the
    code itself otherwise; no [.show()] is left as long as that image
    path does not hold one itself. *)
Theorem replace_show_with_savefig_clean (code id output_images_path : list N) :
  contains show_call (OsPath.join output_images_path (id ++ py ".png")) = false ->
  replace_show_with_savefig code id output_images_path =
    (if contains show_call code
     then replace code show_call
            (savefig_call (OsPath.join output_images_path (id ++ py ".png")))
     else code) /\
  contains show_call (replace_show_with_savefig code id output_images_path) = false.
Proof.
  intros Hpath. unfold replace_show_with_savefig.
  destruct (contains show_call code) eqn:Hc; split; try done.
  by apply replace_show_clean.
Qed.

Lemma replace_show_with_savefig_clean_witness :
  replace_show_with_savefig code_show (py "q1") (py "images") =
    py "fig.savefig(" ++ double_quote ++ py "images/q1.png" ++ double_quote ++ py ")" /\
  contains show_call (replace_show_with_savefig code_show (py "q1") (py "images")) = false.
Proof.
  destruct (replace_show_with_savefig_clean code_show (py "q1") (py "images")) as [H1 H2].
  - reflexivity.
  - split; [exact H1 | exact H2].
Defined.

(** C8, as stated, fails: with an identifier that holds [.show()] the
    token is still there after the replacement. *)
Lemma replace_show_with_savefig_leaves_show :
  contains show_call code_show = true /\
  contains show_call (replace_show_with_savefig code_show (py "a.show()") (py "images")) = true.
Proof. split; reflexivity. Qed.

(** ** The path rewriter *)

Section UpdatePath.

Implicit Types (line code path sub s : list N) (lines pre rest : list (list N)).

Lemma update_loop_pass pre rest code path :
  Forall passed_over pre ->
  update_loop (pre ++ rest) code path = update_loop rest code path.
Proof.
  induction 1 as [|l pre Hl _ IH]; [done|].
  change ((l :: pre) ++ rest) with (l :: (pre ++ rest)). cbn [update_loop].
  destruct Hl as [-> | ->]; [done|]. by destruct (contains csv_ext l).
Qed.

Lemma update_loop_hit line rest code path :
  contains csv_ext line = true -> wrong_path line <> [] ->
  update_loop (line :: rest) code path =
  replace code line (replace line (wrong_path line) path).
Proof.
  intros Hc Hw. cbn [update_loop]. rewrite Hc. by destruct (wrong_path line).
Qed.




Lemma contains_not_absent sub s1 s2 :
  contains sub s1 = true -> contains sub s2 = false -> contains s1 s2 = false.
Proof.
  intros H1 H2. destruct (contains s1 s2) eqn:H; [|done].
  by rewrite (contains_trans _ _ _ H1 H) in H2.
Qed.

Lemma wrong_path_nonempty line : wrong_path line <> [] -> line <> [].
Proof. intros H ->. by apply H. Qed.




(** On a line with [.csv] and no quote at all, [find] and [rfind] both
    give -1, the slice [line[0:-1]] is the line without its last
    character, and that is what gets replaced by the path. *)
Lemma update_no_quote_line :
  find (quote_symbol code_no_quote) code_no_quote = -1 /\
  rfind (quote_symbol code_no_quote) code_no_quote = -1 /\
  wrong_path code_no_quote = py "# reads x.cs" /\
  update_dataset_local_path code_no_quote (py "d.csv") (py "data") = py "data/d.csvv".
Proof. repeat split; reflexivity. Qed.

(** The first line with [.csv] and text between its quotes decides the
    result. *)
Lemma update_first_match (code filename datasets_path : list N) pre line post :
  splitlines code = pre ++ line :: post ->
  Forall (fun l => contains csv_ext l = false) pre ->
  contains csv_ext line = true ->
  wrong_path line <> [] ->
  update_dataset_local_path code filename datasets_path =
  replace code line (replace line (wrong_path line) (OsPath.join datasets_path filename)).
Proof.
  intros Hs Hpre Hc Hw. unfold update_dataset_local_path.
  rewrite Hs, update_loop_pass.
  - by apply update_loop_hit.
  - eapply Forall_impl; [exact Hpre|]. intros l Hl. by left.
Qed.

(** The result, line by line. *)
Lemma update_first_match_lines (code filename datasets_path : list N) pre line post :
  splitlines code = pre ++ line :: post ->
  Forall (fun l => contains csv_ext l = false) pre ->
  contains csv_ext line = true ->
  wrong_path line <> [] ->
  OsPath.join datasets_path filename <> [] ->
  no_linebreak (OsPath.join datasets_path filename) ->
  let newline := replace line (wrong_path line) (OsPath.join datasets_path filename) in
  splitlines (update_dataset_local_path code filename datasets_path) =
  (fun l => if contains line l then replace l line newline else l) <$> splitlines code.
Proof.
  intros Hs Hpre Hc Hw Hpath Hnl newline.
  rewrite (update_first_match _ _ _ _ _ _ Hs Hpre Hc Hw). fold newline.
  pose proof (wrong_path_nonempty _ Hw) as Hline.
  assert (no_linebreak line) as Hlnl.
  { pose proof (splitlines_no_linebreak code) as H. rewrite Hs in H.
    apply Forall_app in H as [_ H]. by apply Forall_cons in H as [H _]. }
  rewrite splitlines_replace; try done.
  - apply list_fmap_ext. intros _ l _.
    destruct (contains line l) eqn:Hl; [done|by apply replace_absent].
  - by apply replace_nonempty.
  - by apply replace_Forall.
Qed.

(** C4, as the code has it: the first line with [.csv], when something
    lies between its quotes, is rewritten by replacing that text by the
    path, and the code returned is [code.replace(line, newline)]: every
    line of the code has the occurrences of the whole matched line replaced
    by the new line, and a line that does not hold the matched line is kept
    as it is, the old path on it included. *)
Theorem update_rewrites_matched_line (code filename datasets_path : list N)
    pre line post :
  splitlines code = pre ++ line :: post ->
  Forall (fun l => contains csv_ext l = false) pre ->
  contains csv_ext line = true ->
  wrong_path line <> [] ->
  let path := OsPath.join datasets_path filename in
  let newline := replace line (wrong_path line) path in
  update_dataset_local_path code filename datasets_path = replace code line newline /\
  (path <> [] -> no_linebreak path ->
   splitlines (update_dataset_local_path code filename datasets_path) =
   (fun l => if contains line l then replace l line newline else l) <$> splitlines code).
Proof.
  intros Hs Hpre Hc Hw path newline. split.
  - by apply (update_first_match _ _ _ pre line post).
  - intros Hpath Hnl. by apply (update_first_match_lines _ _ _ pre line post).
Qed.

Lemma update_rewrites_matched_line_witness :
  update_dataset_local_path code_comment (py "d.csv") (py "data") =
    text [py "df = pd.read_csv('data/d.csv')"; py "# a.csv is remote"] /\
  splitlines (update_dataset_local_path code_comment (py "d.csv") (py "data")) =
    [py "df = pd.read_csv('data/d.csv')"; py "# a.csv is remote"].
Proof.
  destruct (update_rewrites_matched_line code_comment (py "d.csv") (py "data")
              [] (py "df = pd.read_csv('a.csv')") [py "# a.csv is remote"])
    as [H1 H2].
  - reflexivity.
  - constructor.
  - reflexivity.
  - discriminate.
  - split.
    + rewrite H1. reflexivity.
    + rewrite H2.
      * reflexivity.
      * discriminate.
      * vm_compute. repeat constructor.
Defined.

(** C4, as stated, fails: the quoted substring of the matched line is
    [a.csv]; it stands on the comment line too, and there it is not
    replaced, so the result is not that of replacing it in the whole
    code. *)
Lemma update_keeps_old_path_elsewhere :
  wrong_path (py "df = pd.read_csv('a.csv')") = py "a.csv" /\
  splitlines (update_dataset_local_path code_comment (py "d.csv") (py "data")) =
    [py "df = pd.read_csv('data/d.csv')"; py "# a.csv is remote"] /\
  update_dataset_local_path code_comment (py "d.csv") (py "data") <>
    replace code_comment (py "a.csv") (OsPath.join (py "data") (py "d.csv")).
Proof. repeat split; try reflexivity. discriminate. Qed.

(** Code whose first line with [.csv] and a quoted substring already
    quotes the resolved path is returned unchanged. *)
Lemma update_fixed_on_local_path (code filename datasets_path : list N)
    pre line post :
  splitlines code = pre ++ line :: post ->
  Forall passed_over pre ->
  contains csv_ext line = true ->
  wrong_path line <> [] ->
  wrong_path line = OsPath.join datasets_path filename ->
  update_dataset_local_path code filename datasets_path = code.
Proof.
  intros Hs Hpre Hc Hw Hp. unfold update_dataset_local_path.
  rewrite Hs, update_loop_pass, update_loop_hit by done.
  rewrite <- Hp, replace_same by done.
  apply replace_same. by apply wrong_path_nonempty.
Qed.

Lemma update_fixed_on_local_path_example :
  update_dataset_local_path code_local (py "d.csv") (py "data") = code_local.
Proof.
  apply (update_fixed_on_local_path code_local (py "d.csv") (py "data")
           [py "import pandas as pd"] (py "df = pd.read_csv('data/d.csv')") []).
  - reflexivity.
  - repeat constructor.
  - reflexivity.
  - discriminate.
  - reflexivity.
Qed.

(** *** Lines with one quoted string *)

Lemma unquoted_not_elem q s : is_quote q -> unquoted s -> q ∉ s.
Proof.
  intros Hq Hs Hin. unfold unquoted in Hs. rewrite Forall_forall in Hs.
  destruct (Hs q Hin) as [H1 H2]. by destruct Hq.
Qed.

Lemma contains_single c s : contains [c] s = true <-> c ∈ s.
Proof.
  induction s as [|b s IH]; [by rewrite elem_of_nil|].
  rewrite contains_cons, orb_true_iff, IH, elem_of_cons. cbn [startswith].
  rewrite andb_true_r, N.eqb_eq. tauto.
Qed.

Lemma contains_single_false c s : c ∉ s -> contains [c] s = false.
Proof.
  intros H. destruct (contains [c] s) eqn:Hc; [|done].
  by apply contains_single in Hc.
Qed.

Lemma index_of_single c s t : c ∉ s -> index_of [c] (s ++ c :: t) = Some (length s).
Proof.
  induction s as [|b s IH]; intros Hc.
  - simpl. by rewrite N.eqb_refl.
  - apply not_elem_of_cons in Hc as [Hcb Hc].
    change ((b :: s) ++ c :: t) with (b :: (s ++ c :: t)). cbn [index_of startswith].
    destruct (N.eqb_spec c b); [done|]. cbn [andb]. by rewrite IH.
Qed.

Lemma rindex_of_single_absent c s : c ∉ s -> rindex_of [c] s = None.
Proof.
  induction s as [|b s IH]; intros Hc; [done|].
  apply not_elem_of_cons in Hc as [Hcb Hc]. cbn [rindex_of startswith].
  rewrite IH by done. by destruct (N.eqb_spec c b).
Qed.

Lemma rindex_of_single c s t : c ∉ t -> rindex_of [c] (s ++ c :: t) = Some (length s).
Proof.
  intros Hc. induction s as [|b s IH].
  - cbn [app rindex_of startswith]. rewrite rindex_of_single_absent by done.
    by rewrite N.eqb_refl.
  - change ((b :: s) ++ c :: t) with (b :: (s ++ c :: t)). cbn [rindex_of].
    by rewrite IH.
Qed.

Lemma slice_middle s1 s2 s3 :
  slice (s1 ++ s2 ++ s3) (Z.of_nat (length s1)) (Z.of_nat (length s1 + length s2)) = s2.
Proof.
  unfold slice, adjust_index. rewrite !length_app.
  destruct (Z.ltb_spec (Z.of_nat (length s1)) 0); [lia|].
  destruct (Z.ltb_spec (Z.of_nat (length s1 + length s2)) 0); [lia|].
  replace (Z.to_nat (Z.max 0 (Z.min _ (Z.of_nat (length s1))))) with (length s1) by lia.
  replace (Z.to_nat _) with (length s2) by lia.
  by rewrite drop_app_length, take_app_length.
Qed.

(** On a line [a q w q b] with no other quote, the text between the
    first and the last quote is [w]. *)
Lemma wrong_path_quoted q a w b :
  is_quote q -> unquoted a -> unquoted w -> unquoted b ->
  wrong_path (a ++ q :: w ++ q :: b) = w.
Proof.
  intros Hq Ha Hw Hb. unfold wrong_path.
  assert (quote_symbol (a ++ q :: w ++ q :: b) = [q]) as ->.
  { unfold quote_symbol, single_quote. change (py "'") with [39%N].
    destruct Hq as [-> | ->].
    - replace (contains _ _) with true; [done|]. symmetry.
      apply contains_single. rewrite elem_of_app, elem_of_cons. auto.
    - rewrite contains_single_false; [done|].
      assert (is_quote 39%N) as Hq by (by left).
      rewrite !not_elem_of_app, !not_elem_of_cons, !not_elem_of_app, !not_elem_of_cons.
      repeat split; try done; by apply unquoted_not_elem. }
  unfold find, rfind. rewrite index_of_single by (by apply unquoted_not_elem).
  replace (a ++ q :: w ++ q :: b) with ((a ++ q :: w) ++ q :: b) at 2
    by (by rewrite <- app_assoc).
  rewrite rindex_of_single by (by apply unquoted_not_elem).
  replace (a ++ q :: w ++ q :: b) with ((a ++ [q]) ++ w ++ q :: b)
    by (by rewrite <- app_assoc).
  replace (Z.of_nat (length a) + 1) with (Z.of_nat (length (a ++ [q])))
    by (rewrite length_app; simpl; lia).
  replace (length (a ++ q :: w)) with (length (a ++ [q]) + length w)%nat
    by (rewrite !length_app; simpl; lia).
  apply slice_middle.
Qed.

(** Rewriting such a line gives a line of the same shape around the
    path. *)
Lemma replace_quoted q a w b path :
  is_quote q -> unquoted w -> w <> [] ->
  replace (a ++ q :: w ++ q :: b) w path =
  replace a w path ++ q :: path ++ q :: replace b w path.
Proof.
  intros Hq Hw Hne. pose proof (unquoted_not_elem q w Hq Hw) as Hqw.
  rewrite replace_app_cut by done. do 2 f_equal.
  rewrite replace_app_cut by done. by rewrite replace_self.
Qed.

(** C9, as stated, fails: with a file name that has no [.csv] in it, the
    first pass rewrites the first line, and the second pass goes on to
    the next one. *)
Lemma update_not_idempotent :
  update_dataset_local_path code_two_datasets (py "d.xlsx") (py "data") =
    text [py "a = pd.read_csv('data/d.xlsx')"; py "b = pd.read_csv('b.csv')"] /\
  update_dataset_local_path
    (update_dataset_local_path code_two_datasets (py "d.xlsx") (py "data"))
    (py "d.xlsx") (py "data") =
    text [py "a = pd.read_csv('data/d.xlsx')"; py "b = pd.read_csv('data/d.xlsx')"] /\
  update_dataset_local_path
    (update_dataset_local_path code_two_datasets (py "d.xlsx") (py "data"))
    (py "d.xlsx") (py "data") <>
  update_dataset_local_path code_two_datasets (py "d.xlsx") (py "data").
Proof. repeat split; try reflexivity. discriminate. Qed.

(** Nor does it hold for every code when the file name ends in [.csv]:
    here the text between the first and the last quote also begins the
    line, the first pass replaces that first occurrence, and the second
    pass finds another quoted text. *)
Lemma update_not_idempotent_overlap :
  update_dataset_local_path (py "x.csv'x.csv'x.csv'") (py "d.csv") (py "data") =
    py "data/d.csv'x.csv'" /\
  update_dataset_local_path (py "data/d.csv'x.csv'") (py "d.csv") (py "data") =
    py "data/d.csv'data/d.csv'".
Proof. split; reflexivity. Qed.

End UpdatePath.

(** ** The executor *)

Lemma bind_eq {A B} (m : M A) (k : A -> M B) (w : world) :
  (m ≫= k) w = match m w with Ok a w' => k a w' | Raise e w' => Raise e w' end.
Proof. done. Qed.

(** Runs the monad as far as the goal determines it. *)
Ltac step_M :=
  repeat first [ rewrite bind_eq
               | progress unfold ret, raise, write_file
               | progress cbv beta iota ].

Section Executor.

Implicit Types (exec : interpreter) (code id path : list N) (w : world).

Lemma OsPath_join_suffix (a b : list N) : exists pre, OsPath.join a b = pre ++ b.
Proof.
  unfold OsPath.join. destruct (startswith OsPath.sep b).
  - by exists [].
  - destruct (_ || _)%bool.
    + by exists a.
    + exists (a ++ OsPath.sep). by rewrite <- app_assoc.
Qed.

(** The two artifacts of an identifier are different files. *)
Lemma artifact_paths_differ id (execution_outputs_path execution_errors_path : list N) :
  error_path id execution_errors_path <> output_path id execution_outputs_path.
Proof.
  unfold error_path, output_path. intros H.
  destruct (OsPath_join_suffix execution_errors_path (id ++ py "_error.txt")) as [p1 H1].
  destruct (OsPath_join_suffix execution_outputs_path (id ++ py "_output.txt")) as [p2 H2].
  rewrite H1, H2 in H. apply (f_equal (@rev N)) in H.
  rewrite !rev_app_distr in H. vm_compute (rev (py _)) in H.
  rewrite <- !app_assoc in H. simpl in H. by injection H.
Qed.

(** Removing a file under [suppress(FileNotFoundError)] never fails. *)
Lemma remove_suppressed path w :
  suppress_FileNotFoundError (os_remove path) w =
  Ok tt {| files := delete path (files w); console := console w |}.
Proof.
  unfold suppress_FileNotFoundError, os_remove.
  destruct (files w !! path) eqn:E; [done|].
  change (is_FileNotFoundError (FileNotFoundError path)) with true. cbv iota.
  rewrite delete_id by done. by destruct w.
Qed.

Lemma execute_code_unfold exec code save_output id (od ed : list N) w :
  execute_code exec code save_output id od ed w =
  (r ← run_redirected exec code;
   match r with
   | inr c =>
       (if save_output then write_file (error_path id ed) (error_desc c) else ret tt) ;;
       ret (error_desc c)
   | inl output =>
       (if (save_output && nonempty output)%bool
        then write_file (output_path id od) output else ret tt) ;;
       ret output
   end) {| files := cleaned save_output id od ed (files w); console := console w |}.
Proof.
  unfold execute_code, cleaned. destruct save_output.
  - rewrite 2!bind_eq, remove_suppressed. cbv beta iota.
    by rewrite remove_suppressed.
  - rewrite bind_eq. by destruct w.
Qed.

Lemma cleaned_lookup id (od ed : list N) (fs : gmap (list N) (list N)) :
  cleaned true id od ed fs !! error_path id ed = None /\
  cleaned true id od ed fs !! output_path id od = None.
Proof.
  unfold cleaned. split.
  - rewrite lookup_delete_ne by (apply not_eq_sym, artifact_paths_differ).
    apply lookup_delete_eq.
  - apply lookup_delete_eq.
Qed.

Lemma error_desc_nonempty c : error_desc c <> [].
Proof.
  unfold error_desc. intros H. apply app_eq_nil in H as [_ H]. discriminate H.
Qed.

(** When the snippet completes, its output is returned, and written when
    it is to be saved and not empty. *)
Lemma execute_code_completed exec code save_output id (od ed : list N) w output fs' :
  exec code (cleaned save_output id od ed (files w)) = (Completed output, fs') ->
  execute_code exec code save_output id od ed w =
  Ok output {| files := if (save_output && nonempty output)%bool
                        then <[output_path id od := output]> fs' else fs';
               console := console w |}.
Proof.
  intros H. rewrite execute_code_unfold, bind_eq. unfold run_redirected.
  cbn [files console]. rewrite H. step_M.
  by destruct (save_output && nonempty output)%bool.
Qed.

(** When it raises an exception that has a message and a traceback of two
    frames, the description is returned, and written when it is to be
    saved. *)
Lemma execute_code_classified exec code save_output id (od ed : list N) w err fs'
    d args fr0 fr frames :
  exec code (cleaned save_output id od ed (files w)) = (Raised err, fs') ->
  exc_kind err = IsException ->
  exc_args err = d :: args ->
  exc_tb err = fr0 :: fr :: frames ->
  let desc := exc_name err ++ py " at line " ++ str_of_N (fs_lineno fr) ++ py ": " ++ d in
  execute_code exec code save_output id od ed w =
  Ok desc {| files := if save_output then <[error_path id ed := desc]> fs' else fs';
             console := console w |}.
Proof.
  intros H Hk Ha Ht desc. rewrite execute_code_unfold, bind_eq. unfold run_redirected.
  cbn [files console]. rewrite H. cbv beta iota. rewrite Hk.
  unfold classify_exception. rewrite Ha, Ht.
  step_M. by destruct save_output.
Qed.

(** A syntax error is described with its own line number. *)
Lemma execute_code_syntax_error exec code save_output id (od ed : list N) w err fs' d args :
  exec code (cleaned save_output id od ed (files w)) = (Raised err, fs') ->
  exc_kind err = IsSyntaxError ->
  exc_args err = d :: args ->
  let desc := exc_name err ++ py " at line " ++ format_lineno (exc_lineno err) ++ py ": " ++ d in
  execute_code exec code save_output id od ed w =
  Ok desc {| files := if save_output then <[error_path id ed := desc]> fs' else fs';
             console := console w |}.
Proof.
  intros H Hk Ha desc. rewrite execute_code_unfold, bind_eq. unfold run_redirected.
  cbn [files console]. rewrite H. cbv beta iota. rewrite Hk.
  unfold classify_syntax_error. rewrite Ha.
  step_M. by destruct save_output.
Qed.

(** [print(1+1)] and [1/0], with and without saving. *)
Example execute_code_print save_output :
  exists w', execute_code sample_exec (py "print(1+1)") save_output (py "q1")
               (py "outputs") (py "errors") stale_world = Ok (py "2" ++ [LF]) w' /\
             (save_output = true ->
              files w' !! py "errors/q1_error.txt" = None /\
              files w' !! py "outputs/q1_output.txt" = Some (py "2" ++ [LF])).
Proof. destruct save_output; eexists; split; try reflexivity; done. Qed.

Example execute_code_division save_output :
  exists w', execute_code sample_exec (py "1/0") save_output (py "q1")
               (py "outputs") (py "errors") empty_world =
             Ok (py "ZeroDivisionError at line 1: division by zero") w'.
Proof. destruct save_output; eexists; reflexivity. Qed.

(** C2, as the code has it: with saving requested, both artifacts of the
    identifier are removed before the snippet runs; afterwards the error
    file holds the description when the snippet raised, the output file
    holds the output when it completed with a non-empty output, and no
    artifact exists when it completed without output.  The snippet itself
    is taken not to touch the two files. *)
Theorem execute_code_artifacts exec code id (od ed : list N) w r w' :
  (forall fs, (exec code fs).2 !! error_path id ed = fs !! error_path id ed /\
              (exec code fs).2 !! output_path id od = fs !! output_path id od) ->
  execute_code exec code true id od ed w = Ok r w' ->
  match (exec code (cleaned true id od ed (files w))).1 with
  | Completed output =>
      r = output /\
      files w' !! error_path id ed = None /\
      files w' !! output_path id od = (if nonempty output then Some output else None)
  | Raised _ =>
      r <> [] /\
      files w' !! error_path id ed = Some r /\
      files w' !! output_path id od = None
  end.
Proof.
  intros Hexec. specialize (Hexec (cleaned true id od ed (files w))).
  destruct (cleaned_lookup id od ed (files w)) as [He Ho]. rewrite He, Ho in Hexec.
  destruct Hexec as [He' Ho'].
  pose proof (artifact_paths_differ id od ed) as Hne.
  destruct (exec code (cleaned true id od ed (files w))) as [o fs'] eqn:Hx.
  cbn [fst snd] in *. destruct o as [output|err].
  - rewrite (execute_code_completed _ _ _ _ _ _ _ _ _ Hx). intros [= <- <-].
    cbn [files andb]. destruct (nonempty output).
    + by rewrite lookup_insert_eq, lookup_insert_ne.
    + done.
  - rewrite execute_code_unfold, bind_eq. unfold run_redirected.
    cbn [files console]. rewrite Hx. cbv beta iota.
    destruct (exc_kind err); [| |done].
    + unfold classify_syntax_error.
      destruct (exc_args err) as [|d args]; [done|].
      step_M. intros [= <- <-]. cbn [files].
      rewrite lookup_insert_eq, lookup_insert_ne by done.
      split; [apply error_desc_nonempty|done].
    + unfold classify_exception.
      destruct (exc_args err) as [|d args]; [done|].
      destruct (exc_tb err) as [|fr0 [|fr frames]]; [done..|].
      step_M. intros [= <- <-]. cbn [files].
      rewrite lookup_insert_eq, lookup_insert_ne by done.
      split; [apply error_desc_nonempty|done].
Qed.

Lemma execute_code_artifacts_witness :
  files stale_world !! py "errors/q1_error.txt" <> None /\
  exists w',
    execute_code sample_exec (py "print(1+1)") true (py "q1") (py "outputs") (py "errors")
      stale_world = Ok (py "2" ++ [LF]) w' /\
    files w' !! py "errors/q1_error.txt" = None /\
    files w' !! py "outputs/q1_output.txt" = Some (py "2" ++ [LF]).
Proof.
  split; [discriminate|]. eexists. split; [reflexivity|].
  pose proof (execute_code_artifacts sample_exec (py "print(1+1)") (py "q1")
                (py "outputs") (py "errors") stale_world (py "2" ++ [LF]) _
                (fun fs => conj eq_refl eq_refl) eq_refl) as H.
  destruct H as (_ & H1 & H2). split; [exact H1 | exact H2].
Defined.

(** C2, as stated, fails: a snippet that prints nothing leaves neither
    file, and the error file of the earlier run is gone. *)
Lemma execute_code_silent_no_artifact :
  exists w',
    execute_code sample_exec (py "x = 1") true (py "q1") (py "outputs") (py "errors")
      stale_world = Ok [] w' /\
    files w' !! error_path (py "q1") (py "errors") = None /\
    files w' !! output_path (py "q1") (py "outputs") = None.
Proof. eexists. repeat split; reflexivity. Qed.

(** C6 fails on [raise ValueError]: the exception has no message, the
    handler reads [err.args[0]], and instead of a description being
    returned an [IndexError] leaves [execute_code]. *)
Lemma execute_code_raise_without_message :
  sample_exec (py "raise ValueError") (files empty_world) =
    (Raised (ValueError_no_args_at 1), files empty_world) /\
  execute_code sample_exec (py "raise ValueError") false (py "q3")
    (py "outputs") (py "errors") empty_world =
  Raise (IndexError "tuple index out of range") empty_world.
Proof. split; reflexivity. Qed.

End Executor.

(** ** The batch driver *)

Section Driver.

Implicit Types (exec : interpreter) (g : globals) (r : row) (w : world).

Lemma process_row_run exec g n r w :
  nonempty (CODE_COLUMN r) = true ->
  process_row exec g n r w =
  (save_script (script_of g r) (ID_COLUMN r) (SCRIPTS_PATH g) ;;
   execute_code exec (script_of g r) true (ID_COLUMN r)
     (EXECUTION_OUTPUTS_PATH g) (EXECUTION_ERRORS_PATH g) ;;
   ret tt) w.
Proof. intros H. unfold process_row. by rewrite H. Qed.

Lemma process_rows_app exec g n pre rest w w1 :
  process_rows exec g n pre w = Ok tt w1 ->
  process_rows exec g n (pre ++ rest) w = process_rows exec g (n + length pre) rest w1.
Proof.
  revert n w. induction pre as [|r pre IH]; intros n w.
  - cbn. intros [= <-]. by rewrite Nat.add_0_r.
  - change ((r :: pre) ++ rest) with (r :: (pre ++ rest)). cbn [process_rows].
    rewrite !bind_eq. destruct (process_row exec g n r w) as [[] w0|]; [|done].
    intros H. rewrite (IH _ _ H). f_equal. simpl. lia.
Qed.

(** An exception that leaves the body of the loop leaves the loop. *)
Lemma process_rows_raise exec g n r rest w e w' :
  process_row exec g n r w = Raise e w' ->
  process_rows exec g n (r :: rest) w = Raise e w'.
Proof. intros H. cbn [process_rows]. by rewrite bind_eq, H. Qed.

(** C10: when the snippet raises an exception whose [args] is empty,
    the clause that catches it reads [err.args[0]] and raises
    [IndexError]: [execute_code] returns no description, with or without
    saving, and the exception leaves the loop over the rows and the loop
    over the sheets, so that the rows and sheets that follow are not
    processed. *)
Theorem execute_code_no_args_raises exec code err :
  (forall fs, (exec code fs).1 = Raised err) ->
  exc_args err = [] ->
  (forall save_output (id od ed : list N) w,
     exists w', execute_code exec code save_output id od ed w =
                Raise (propagated err) w') /\
  (forall g sh sheets pre r rest w w1,
     sheet_rows sh = pre ++ r :: rest ->
     nonempty (CODE_COLUMN r) = true ->
     script_of g r = code ->
     (print (sheet_head sh) ;; process_rows exec g 0 pre) w = Ok tt w1 ->
     exists w', extract_and_save_scripts_from_sheets exec g (sh :: sheets) w =
                Raise (propagated err) w').
Proof.
  intros Hexec Hargs.
  assert (forall save_output (id od ed : list N) w,
            exists w', execute_code exec code save_output id od ed w =
                       Raise (propagated err) w') as Hraise.
  { intros save_output id od ed w. rewrite execute_code_unfold, bind_eq.
    unfold run_redirected, propagated. cbn [files console].
    specialize (Hexec (cleaned save_output id od ed (files w))).
    destruct (exec code _) as [o fs']. cbn [fst] in Hexec. subst o. cbv beta iota.
    destruct (exc_kind err).
    - unfold classify_syntax_error. rewrite Hargs. step_M. by eexists.
    - unfold classify_exception. rewrite Hargs. step_M. by eexists.
    - by eexists. }
  split; [exact Hraise|].
  intros g sh sheets pre r rest w w1 Hrows Hcell Hscript Hpre.
  destruct (Hraise true (ID_COLUMN r) (EXECUTION_OUTPUTS_PATH g) (EXECUTION_ERRORS_PATH g)
              {| files := <[OsPath.join (SCRIPTS_PATH g) (ID_COLUMN r ++ py ".py") := code]>
                            (files w1);
                 console := console w1 |}) as [w' Hw'].
  exists w'. cbn [extract_and_save_scripts_from_sheets]. rewrite Hrows.
  rewrite bind_eq in Hpre. rewrite bind_eq.
  destruct (print (sheet_head sh) w) as [[] w0|]; [|done].
  cbv beta in Hpre |- *. rewrite bind_eq.
  rewrite (process_rows_app _ _ _ _ _ _ _ Hpre).
  erewrite process_rows_raise; [done|].
  rewrite process_row_run by done. rewrite Hscript.
  unfold save_script. step_M. by rewrite Hw'.
Qed.

Lemma execute_code_no_args_raises_witness :
  (exists w', execute_code sample_exec (py "raise ValueError") true (py "q3")
                (py "outputs") (py "errors") empty_world =
              Raise (IndexError "tuple index out of range") w') /\
  (exists w', extract_and_save_scripts_from_sheets sample_exec sample_globals
                [ {| sheet_head := py "head"; sheet_rows := [row_empty; row_raise; row_no_fence] |} ]
                empty_world =
              Raise (IndexError "tuple index out of range") w').
Proof.
  destruct (execute_code_no_args_raises sample_exec (py "raise ValueError")
              (ValueError_no_args_at 1)) as [H1 H2].
  - intros fs. reflexivity.
  - reflexivity.
  - split.
    + apply H1.
    + eapply (H2 sample_globals _ [] [row_empty] row_raise [row_no_fence]);
        reflexivity.
Defined.




End Driver.

(** * Further properties *)

(** ** The code extractor *)

Section GetCodeMore.

Implicit Types (s line code : list N) (lines pre body post seen : list (list N)).

(** The lines of a text without [sub] are without [sub]. *)
Lemma splitlines_absent sub s :
  contains sub s = false -> Forall (fun l => contains sub l = false) (splitlines s).
Proof.
  intros H. eapply Forall_impl; [apply splitlines_contained|].
  intros l Hl. cbv beta in Hl. destruct (contains sub l) eqn:E; [|done].
  by rewrite (contains_trans _ _ _ E Hl) in H.
Qed.

Lemma get_code_absent s : contains marker s = false -> get_code s = [].
Proof.
  intros H. unfold get_code.
  rewrite <- (app_nil_r (splitlines s)).
  rewrite get_code_loop_before; [done|]. by apply splitlines_absent.
Qed.

(** X1: a text without marker holds no code: [get_code] returns the
    empty string. *)
Theorem get_code_no_marker s : contains marker s = false -> get_code s = [].
Proof.
  intros H. pose proof (splitlines_absent marker s H) as Hlines.
  unfold get_code. rewrite <- (app_nil_r (splitlines s)).
  by rewrite get_code_loop_before.
Qed.

Lemma get_code_no_marker_witness : get_code (py "I cannot answer that.") = [].
Proof. apply get_code_no_marker. reflexivity. Defined.

(** Once inside the block, the loop returns the lines seen and a run of
    the lines to come. *)
Lemma get_code_loop_inside_run lines seen :
  exists body post,
    lines = body ++ post /\
    Forall (fun l => contains marker l = false) body /\
    get_code_loop lines (join [LF] seen) true (is_nil seen) = join [LF] (seen ++ body).
Proof.
  revert seen. induction lines as [|l lines IH]; intros seen.
  - exists [], []. split; [done|]. split; [constructor|]. by rewrite app_nil_r.
  - destruct (contains marker l) eqn:Hl.
    + exists [], (l :: lines). rewrite app_nil_r.
      repeat split; [constructor|]. by apply get_code_loop_close.
    + destruct (IH (seen ++ [l])) as (body & post & -> & Hbody & Heq).
      exists (l :: body), post. repeat split; [by constructor|].
      change (l :: body ++ post) with ([l] ++ body ++ post).
      rewrite (get_code_loop_inside seen [l]) by (by repeat constructor).
      by rewrite Heq, <- app_assoc.
Qed.

Lemma get_code_loop_run lines fl :
  exists pre body post,
    lines = pre ++ body ++ post /\
    Forall (fun l => contains marker l = false) body /\
    get_code_loop lines [] false fl = join [LF] body.
Proof.
  induction lines as [|l lines IH].
  - exists [], [], []. split; [done|]. split; [constructor|done].
  - destruct (contains marker l) eqn:Hl.
    + destruct (get_code_loop_inside_run lines []) as (body & post & -> & Hbody & Heq).
      exists [l], body, post. repeat split; [done|].
      by rewrite get_code_loop_open.
    + destruct IH as (pre & body & post & -> & Hbody & Heq).
      exists (l :: pre), body, post. repeat split; [done|].
      change (l :: pre ++ body ++ post) with ([l] ++ pre ++ body ++ post).
      by rewrite get_code_loop_before by (by repeat constructor).
Qed.

(** X2: whatever the input, [get_code] returns consecutive lines of it,
    none of which holds a marker, joined by LF. *)
Theorem get_code_lines s :
  exists pre body post,
    splitlines s = pre ++ body ++ post /\
    Forall (fun l => contains marker l = false) body /\
    get_code s = join [LF] body.
Proof.
  unfold get_code.
  destruct (get_code_loop_run (splitlines s) false) as (pre & body & post & Hs & Hbody & Heq).
  by exists pre, body, post.
Qed.

Lemma contains_join_absent sub c lines :
  sub <> [] -> c ∉ sub ->
  Forall (fun l => contains sub l = false) lines ->
  contains sub (join [c] lines) = false.
Proof.
  intros Hne Hc. induction 1 as [|l lines Hl Hlines IH]; [by destruct sub|].
  destruct lines as [|l' lines]; [done|].
  rewrite join_cons by done. change ([c] ++ join [c] (l' :: lines)) with (c :: join [c] (l' :: lines)).
  rewrite contains_app_cut, Hl by done. cbn [orb].
  rewrite contains_cons, IH, orb_false_r.
  destruct sub as [|a sub]; [done|]. apply not_elem_of_cons in Hc as [Hc _].
  cbn [startswith]. by destruct (N.eqb_spec a c).
Qed.

(** X3: the extracted code never holds a marker. *)
Theorem get_code_without_marker s : contains marker (get_code s) = false.
Proof.
  destruct (get_code_loop_run (splitlines s) false) as (pre & body & post & _ & Hbody & Heq).
  unfold get_code. rewrite Heq. apply contains_join_absent; [done| |done].
  change marker with [96; 96; 96]%N. rewrite !not_elem_of_cons.
  repeat split; try done. apply not_elem_of_nil.
Qed.

Lemma join_Forall (P : N -> Prop) c lines :
  P c -> Forall (Forall P) lines -> Forall P (join [c] lines).
Proof.
  intros Hc. induction 1 as [|l lines Hl Hlines IH]; [constructor|].
  destruct lines as [|l' lines]; [done|].
  rewrite join_cons by done. apply Forall_app. split; [done|]. by constructor.
Qed.

(** X4: the only line boundary in the extracted code is LF, whatever
    boundaries the input uses. *)
Theorem get_code_line_boundaries s :
  Forall (fun c => c = LF \/ is_linebreak c = false) (get_code s).
Proof.
  destruct (get_code_loop_run (splitlines s) false) as (pre & body & post & Hs & _ & Heq).
  unfold get_code. rewrite Heq. apply join_Forall; [by left|].
  pose proof (splitlines_no_linebreak s) as H. rewrite Hs in H.
  apply Forall_app in H as [_ H]. apply Forall_app in H as [H _].
  eapply Forall_impl; [exact H|]. intros l Hl.
  eapply Forall_impl; [exact Hl|]. intros c Hc. by right.
Qed.

End GetCodeMore.

(** ** The path rewriter *)

Section UpdatePathMore.

Implicit Types (s line code path : list N).

(** X5: code that has no [.csv] in it is returned unchanged, whatever
    the file name and the datasets directory. *)
Theorem update_without_csv (code filename datasets_path : list N) :
  contains csv_ext code = false ->
  update_dataset_local_path code filename datasets_path = code.
Proof.
  intros H. unfold update_dataset_local_path.
  rewrite <- (app_nil_r (splitlines code)), update_loop_pass; [done|].
  eapply Forall_impl; [by apply splitlines_absent|]. intros l Hl. by left.
Qed.

Lemma update_without_csv_witness :
  update_dataset_local_path (py "print(1+1)") (py "d.csv") (py "data") = py "print(1+1)".
Proof. apply update_without_csv. reflexivity. Defined.

(** X6: the old path is everything between the first and the last
    occurrence of the quote in use: an apostrophe when the line has one,
    a double quote otherwise.  Quotes in between, of either kind, belong
    to it. *)
Theorem wrong_path_between_quotes (q : N) (a w b : list N) :
  is_quote q -> q ∉ a -> q ∉ b ->
  (q = 34%N -> 39%N ∉ a ++ w ++ b) ->
  wrong_path (a ++ q :: w ++ q :: b) = w.
Proof.
  intros Hq Ha Hb Hs. unfold wrong_path.
  assert (quote_symbol (a ++ q :: w ++ q :: b) = [q]) as ->.
  { unfold quote_symbol, single_quote. change (py "'") with [39%N].
    destruct Hq as [-> | ->].
    - replace (contains _ _) with true; [done|]. symmetry.
      apply contains_single. rewrite elem_of_app, elem_of_cons. auto.
    - rewrite contains_single_false; [done|]. specialize (Hs eq_refl).
      rewrite !not_elem_of_app in Hs. destruct Hs as (H1 & H2 & H3).
      rewrite !not_elem_of_app, !not_elem_of_cons, !not_elem_of_app, !not_elem_of_cons.
      repeat split; done. }
  unfold find, rfind. rewrite index_of_single by done.
  replace (a ++ q :: w ++ q :: b) with ((a ++ q :: w) ++ q :: b) at 2
    by (by rewrite <- app_assoc).
  rewrite rindex_of_single by done.
  replace (a ++ q :: w ++ q :: b) with ((a ++ [q]) ++ w ++ q :: b)
    by (by rewrite <- app_assoc).
  replace (Z.of_nat (length a) + 1) with (Z.of_nat (length (a ++ [q])))
    by (rewrite length_app; simpl; lia).
  replace (length (a ++ q :: w)) with (length (a ++ [q]) + length w)%nat
    by (rewrite !length_app; simpl; lia).
  apply slice_middle.
Qed.

Lemma wrong_path_between_quotes_witness :
  wrong_path (py "df = pd.read_csv('a.csv', sep=';')") = py "a.csv', sep=';".
Proof.
  apply (wrong_path_between_quotes 39%N (py "df = pd.read_csv(") (py "a.csv', sep=';") (py ")")).
  - by left.
  - vm_compute py. rewrite !not_elem_of_cons. repeat split; try done. apply not_elem_of_nil.
  - vm_compute py. rewrite !not_elem_of_cons. repeat split; try done. apply not_elem_of_nil.
  - discriminate.
Defined.

Lemma index_of_single_absent c s : c ∉ s -> index_of [c] s = None.
Proof.
  induction s as [|b s IH]; intros Hc; [done|].
  apply not_elem_of_cons in Hc as [Hcb Hc]. cbn [index_of startswith].
  destruct (N.eqb_spec c b); [done|]. cbn [andb]. by rewrite IH.
Qed.

(** On a line without any quote the slice is [line[0:-1]]. *)
Lemma wrong_path_unquoted (init : list N) (c : N) :
  unquoted (init ++ [c]) -> wrong_path (init ++ [c]) = init.
Proof.
  intros Hu.
  assert (39%N ∉ init ++ [c]) as H39 by (apply unquoted_not_elem; [by left|done]).
  assert (34%N ∉ init ++ [c]) as H34 by (apply unquoted_not_elem; [by right|done]).
  unfold wrong_path, quote_symbol, single_quote. change (py "'") with [39%N].
  rewrite contains_single_false by done. unfold double_quote, find, rfind.
  rewrite index_of_single_absent, rindex_of_single_absent by done.
  unfold slice, adjust_index. rewrite length_app. cbn [length].
  change (-1 + 1 <? 0) with false. change (-1 <? 0) with true. cbv iota.
  replace (Z.to_nat (Z.max 0 (Z.min _ (-1 + 1)))) with 0%nat by lia.
  replace (Z.to_nat _) with (length init) by lia.
  by rewrite drop_0, take_app_length.
Qed.

(** X7: a one-line code with [.csv] and without any quote does get
    rewritten: [find] and [rfind] both give -1, so the old path is taken to
    be the line without its last character, and what is returned is the
    resolved path followed by that last character. *)
Theorem update_unquoted_line (init : list N) (c : N) (filename datasets_path : list N) :
  unquoted (init ++ [c]) ->
  no_linebreak (init ++ [c]) ->
  contains csv_ext (init ++ [c]) = true ->
  update_dataset_local_path (init ++ [c]) filename datasets_path =
  OsPath.join datasets_path filename ++ [c].
Proof.
  intros Hu Hnl Hc.
  assert (3 <= length init)%nat as Hlen.
  { apply contains_spec in Hc as (a & b & Hc). apply (f_equal length) in Hc.
    rewrite !length_app in Hc. change (length csv_ext) with 4%nat in Hc.
    simpl in Hc. lia. }
  assert (init <> []) as Hinit by (intros ->; simpl in Hlen; lia).
  assert (splitlines (init ++ [c]) = [init ++ [c]]) as Hs.
  { rewrite <- (app_nil_r (init ++ [c])) at 1. rewrite splitlines_app_line by done.
    by destruct init. }
  unfold update_dataset_local_path. rewrite Hs.
  rewrite update_loop_hit; [|done|by rewrite wrong_path_unquoted].
  rewrite wrong_path_unquoted by done.
  rewrite replace_self by (by destruct init).
  rewrite replace_match by done. f_equal.
  rewrite replace_skip; [by rewrite replace_nil; destruct init|done|].
  destruct (startswith init [c]) eqn:E; [|done].
  apply startswith_length in E. simpl in E. lia.
Qed.

Lemma update_unquoted_line_witness :
  update_dataset_local_path code_no_quote (py "d.csv") (py "data") = py "data/d.csvv".
Proof.
  apply (update_unquoted_line (py "# reads x.cs") 118%N (py "d.csv") (py "data")).
  - vm_compute. repeat constructor; discriminate.
  - vm_compute. repeat constructor.
  - reflexivity.
Defined.

End UpdatePathMore.

(** ** The display substituter *)

(** X8: as long as the image path holds no [.show()], a second
    substitution changes nothing. *)
Theorem replace_show_with_savefig_idempotent (code id output_images_path : list N) :
  contains show_call (OsPath.join output_images_path (id ++ py ".png")) = false ->
  replace_show_with_savefig (replace_show_with_savefig code id output_images_path)
    id output_images_path =
  replace_show_with_savefig code id output_images_path.
Proof.
  intros Hpath.
  assert (contains show_call (replace_show_with_savefig code id output_images_path) = false)
    as H.
  { unfold replace_show_with_savefig. destruct (contains show_call code) eqn:Hc; [|done].
    by apply replace_show_clean. }
  unfold replace_show_with_savefig at 1. by rewrite H.
Qed.

Lemma replace_show_with_savefig_idempotent_witness :
  replace_show_with_savefig (replace_show_with_savefig code_show (py "q1") (py "images"))
    (py "q1") (py "images") =
  replace_show_with_savefig code_show (py "q1") (py "images").
Proof. apply replace_show_with_savefig_idempotent. reflexivity. Defined.

(** ** The executor *)

(** Splits a goal about [execute_code] along what [exec] does and what
    the [except] clauses find. *)
Ltac exec_cases :=
  rewrite execute_code_unfold, bind_eq; unfold run_redirected;
  cbn [files console];
  match goal with
  | |- context [?exec ?code (cleaned ?b ?id ?od ?ed ?fs)] =>
      destruct (exec code (cleaned b id od ed fs)) as [[?output|?err] ?fs'] eqn:?Hx
  end;
  cbv beta iota;
  [ | match goal with
      | |- context [exc_kind ?e] =>
          destruct (exc_kind e) eqn:?Hkind;
          [ unfold classify_syntax_error; destruct (exc_args e) as [|?d ?args] eqn:?Hargs
          | unfold classify_exception; destruct (exc_args e) as [|?d ?args] eqn:?Hargs;
            [ | destruct (exc_tb e) as [|?fr0 [|?fr ?frames]] eqn:?Htb ]
          | ]
      end ];
  step_M.

Section ExecutorMore.

Implicit Types (exec : interpreter) (code id od ed p : list N) (w : world).

(** X9: without saving, the code of [execute_code] writes and removes
    no file: whether it returns or raises, the files are exactly those the
    snippet leaves. *)
Theorem execute_code_without_saving exec code id od ed w :
  files (world_of (execute_code exec code false id od ed w)) = (exec code (files w)).2.
Proof.
  exec_cases; unfold cleaned in *; match goal with H : exec _ _ = _ |- _ => rewrite H end;
    done.
Qed.

Lemma cleaned_other id od ed p (fs : gmap (list N) (list N)) :
  p <> error_path id ed -> p <> output_path id od ->
  cleaned true id od ed fs !! p = fs !! p.
Proof. intros H1 H2. unfold cleaned. by rewrite !lookup_delete_ne. Qed.

(** With saving, only the two artifacts differ from what the snippet
    leaves. *)
Lemma execute_code_frame exec code id od ed w p :
  p <> error_path id ed -> p <> output_path id od ->
  files (world_of (execute_code exec code true id od ed w)) !! p =
  (exec code (cleaned true id od ed (files w))).2 !! p.
Proof.
  intros H1 H2. exec_cases; cbn [world_of files snd andb];
    try done; try (by rewrite lookup_insert_ne).
  destruct (nonempty output); cbn [world_of files]; [by rewrite lookup_insert_ne|done].
Qed.

(** X10: with saving, [execute_code] touches the two artifacts of its
    identifier and nothing else: any other file, such as the script or
    the artifacts of another row, is as it was, whether the call returns
    or raises.  The snippet is taken to leave that file alone. *)
Theorem execute_code_other_files exec code id od ed w p :
  p <> error_path id ed -> p <> output_path id od ->
  (forall fs, (exec code fs).2 !! p = fs !! p) ->
  files (world_of (execute_code exec code true id od ed w)) !! p = files w !! p.
Proof.
  intros H1 H2 Hexec. rewrite execute_code_frame, Hexec by done.
  by apply cleaned_other.
Qed.

Lemma execute_code_other_files_witness :
  files (world_of (execute_code sample_exec (py "1/0") true (py "q2")
                     (py "outputs") (py "errors") stale_world))
    !! py "errors/q1_error.txt" =
  Some (py "NameError at line 1: name 'x' is not defined").
Proof.
  rewrite (execute_code_other_files sample_exec (py "1/0") (py "q2")
             (py "outputs") (py "errors") stale_world (py "errors/q1_error.txt")).
  - reflexivity.
  - discriminate.
  - discriminate.
  - intros fs. reflexivity.
Defined.

Lemma cleaned_idemp id od ed (fs : gmap (list N) (list N)) :
  cleaned true id od ed (cleaned true id od ed fs) = cleaned true id od ed fs.
Proof.
  apply map_eq. intros i. unfold cleaned. rewrite !lookup_delete.
  by repeat case_decide.
Qed.

Lemma cleaned_insert_error id od ed (x : list N) (fs : gmap (list N) (list N)) :
  cleaned true id od ed (<[error_path id ed := x]> (cleaned true id od ed fs)) =
  cleaned true id od ed fs.
Proof.
  apply map_eq. intros i. unfold cleaned. rewrite !lookup_delete, ?lookup_insert.
  repeat case_decide; try done. rewrite !lookup_delete. by repeat case_decide.
Qed.

Lemma cleaned_insert_output id od ed (x : list N) (fs : gmap (list N) (list N)) :
  cleaned true id od ed (<[output_path id od := x]> (cleaned true id od ed fs)) =
  cleaned true id od ed fs.
Proof.
  apply map_eq. intros i. unfold cleaned. rewrite !lookup_delete, ?lookup_insert.
  repeat case_decide; try done. rewrite !lookup_delete. by repeat case_decide.
Qed.

(** [execute_code] prints nothing itself. *)
Lemma execute_code_console exec code save_output id od ed w :
  console (world_of (execute_code exec code save_output id od ed w)) = console w.
Proof.
  exec_cases; try done.
  - by destruct (save_output && nonempty output)%bool.
  - by destruct save_output.
  - by destruct save_output.
Qed.

(** With saving, the world it starts in matters only through the files
    left after the removal of the two artifacts, and the console. *)
Lemma execute_code_ext exec code id od ed w1 w2 :
  cleaned true id od ed (files w1) = cleaned true id od ed (files w2) ->
  console w1 = console w2 ->
  execute_code exec code true id od ed w1 = execute_code exec code true id od ed w2.
Proof.
  intros Hf Hc. rewrite (execute_code_unfold _ _ _ _ _ _ w1).
  rewrite (execute_code_unfold _ _ _ _ _ _ w2). by rewrite Hf, Hc.
Qed.

Lemma execute_code_cleaned exec code id od ed w o :
  (forall fs, exec code fs = (o, fs)) ->
  cleaned true id od ed (files (world_of (execute_code exec code true id od ed w))) =
  cleaned true id od ed (files w).
Proof.
  intros Hpure. exec_cases; rewrite Hpure in Hx; injection Hx as -> <-;
    cbn [world_of files andb];
    try apply cleaned_idemp; try apply cleaned_insert_error.
  destruct (nonempty output); cbn [world_of files];
    [apply cleaned_insert_output|apply cleaned_idemp].
Qed.

(** X11: running a snippet again replaces its artifacts and adds
    nothing: for a snippet that always does the same and leaves the files
    alone, a second call of [execute_code] with saving, in the world the
    first one left, gives the same result and the same world. *)
Theorem execute_code_again exec code id od ed w o :
  (forall fs, exec code fs = (o, fs)) ->
  execute_code exec code true id od ed
    (world_of (execute_code exec code true id od ed w)) =
  execute_code exec code true id od ed w.
Proof.
  intros Hpure. apply execute_code_ext.
  - by apply (execute_code_cleaned _ _ _ _ _ _ o).
  - apply execute_code_console.
Qed.

Lemma execute_code_again_witness :
  execute_code sample_exec (py "1/0") true (py "q1") (py "outputs") (py "errors")
    (world_of (execute_code sample_exec (py "1/0") true (py "q1")
                 (py "outputs") (py "errors") stale_world)) =
  execute_code sample_exec (py "1/0") true (py "q1") (py "outputs") (py "errors")
    stale_world.
Proof.
  apply (execute_code_again _ _ _ _ _ _ (Raised (ZeroDivisionError_at 1))).
  intros fs. reflexivity.
Defined.



(** X13: an exception with a message but with a traceback of fewer than
    two frames (the snippet was rejected before any of its lines ran) is
    not described either: [extract_tb(tb)[1]] raises [IndexError], which
    leaves [execute_code]. *)
Theorem execute_code_shallow_traceback exec code err d args :
  (forall fs, (exec code fs).1 = Raised err) ->
  exc_kind err = IsException ->
  exc_args err = d :: args ->
  (length (exc_tb err) < 2)%nat ->
  forall save_output id od ed w,
    exists w', execute_code exec code save_output id od ed w =
               Raise (IndexError "list index out of range") w'.
Proof.
  intros Hexec Hk Ha Ht save_output id od ed w.
  specialize (Hexec (cleaned save_output id od ed (files w))).
  exec_cases; cbn [fst] in Hexec; try done;
    injection Hexec as <-; try congruence; try (by eexists).
  rewrite Htb in Ht. simpl in Ht. lia.
Qed.

Lemma execute_code_shallow_traceback_witness :
  exists w', execute_code failing_exec [0%N] true (py "q1") (py "outputs") (py "errors")
               stale_world =
             Raise (IndexError "list index out of range") w'.
Proof.
  apply (execute_code_shallow_traceback failing_exec [0%N] ValueError_null_bytes
           (py "source code string cannot contain null bytes") []).
  - intros fs. reflexivity.
  - reflexivity.
  - reflexivity.
  - simpl. lia.
Defined.

(** X14: a syntax error with a message is always described, with the
    line number the error carries ([None] when it has none) and without a
    look at the traceback, in [<name> at line <lineno>: <message>]. *)
Theorem execute_code_describes_syntax_error exec code err d args :
  (forall fs, (exec code fs).1 = Raised err) ->
  exc_kind err = IsSyntaxError ->
  exc_args err = d :: args ->
  forall save_output id od ed w,
    exists w', execute_code exec code save_output id od ed w =
               Ok (exc_name err ++ py " at line " ++ format_lineno (exc_lineno err)
                     ++ py ": " ++ d) w'.
Proof.
  intros Hexec Hk Ha save_output id od ed w.
  specialize (Hexec (cleaned save_output id od ed (files w))).
  destruct (exec code (cleaned save_output id od ed (files w))) as [o fs'] eqn:Hx.
  cbn [fst] in Hexec. subst o.
  rewrite (execute_code_syntax_error _ _ _ _ _ _ _ _ _ _ _ Hx Hk Ha). by eexists.
Qed.

Lemma execute_code_describes_syntax_error_witness :
  (exists w', execute_code failing_exec (py "if True") true (py "q1")
                (py "outputs") (py "errors") empty_world =
              Ok (py "SyntaxError at line 1: expected ':'") w') /\
  (exists w', execute_code failing_exec (py "raise SyntaxError('bad')") false (py "q1")
                (py "outputs") (py "errors") empty_world =
              Ok (py "SyntaxError at line None: bad") w').
Proof.
  split.
  - apply (execute_code_describes_syntax_error failing_exec (py "if True")
             SyntaxError_missing_colon (py "expected ':'") []).
    + intros fs. reflexivity.
    + reflexivity.
    + reflexivity.
  - apply (execute_code_describes_syntax_error failing_exec (py "raise SyntaxError('bad')")
             SyntaxError_raised (py "bad") []).
    + intros fs. reflexivity.
    + reflexivity.
    + reflexivity.
Defined.

(** X15: any other exception with a message and a traceback of at least
    two frames is described with the line number of the second frame, in
    [<name> at line <N>: <message>]. *)
Theorem execute_code_describes_exception exec code err d args fr0 fr frames :
  (forall fs, (exec code fs).1 = Raised err) ->
  exc_kind err = IsException ->
  exc_args err = d :: args ->
  exc_tb err = fr0 :: fr :: frames ->
  forall save_output id od ed w,
    exists w', execute_code exec code save_output id od ed w =
               Ok (exc_name err ++ py " at line " ++ str_of_N (fs_lineno fr)
                     ++ py ": " ++ d) w'.
Proof.
  intros Hexec Hk Ha Ht save_output id od ed w.
  specialize (Hexec (cleaned save_output id od ed (files w))).
  destruct (exec code (cleaned save_output id od ed (files w))) as [o fs'] eqn:Hx.
  cbn [fst] in Hexec. subst o.
  rewrite (execute_code_classified _ _ _ _ _ _ _ _ _ _ _ _ _ _ Hx Hk Ha Ht). by eexists.
Qed.

Lemma execute_code_describes_exception_witness :
  exists w', execute_code sample_exec (py "1/0") false (py "q1")
               (py "outputs") (py "errors") empty_world =
             Ok (py "ZeroDivisionError at line 1: division by zero") w'.
Proof.
  apply (execute_code_describes_exception sample_exec (py "1/0") (ZeroDivisionError_at 1)
           (py "division by zero") [] exec_frame
           {| fs_filename := py "<string>"; fs_lineno := 1 |} []).
  - intros fs. reflexivity.
  - reflexivity.
  - reflexivity.
  - reflexivity.
Defined.

(** X16: an exception that is no [Exception] ([SystemExit] from
    [exit()], [KeyboardInterrupt]) is not caught by either clause: it
    leaves [execute_code] as it is, whatever its arguments. *)
Theorem execute_code_base_exception exec code err :
  (forall fs, (exec code fs).1 = Raised err) ->
  exc_kind err = IsBaseException ->
  forall save_output id od ed w,
    exists w', execute_code exec code save_output id od ed w = Raise err w'.
Proof.
  intros Hexec Hk save_output id od ed w.
  specialize (Hexec (cleaned save_output id od ed (files w))).
  exec_cases; cbn [fst] in Hexec; try done;
    injection Hexec as <-; try congruence. by eexists.
Qed.

Lemma execute_code_base_exception_witness :
  exists w', execute_code failing_exec (py "exit()") true (py "q1")
               (py "outputs") (py "errors") empty_world =
             Raise SystemExit_raised w'.
Proof.
  apply (execute_code_base_exception failing_exec (py "exit()") SystemExit_raised).
  - intros fs. reflexivity.
  - reflexivity.
Defined.

End ExecutorMore.

(** ** The files of a row *)

Section Paths.

Implicit Types (id dir suffix : list N).

(** A relative component is appended to the directory, with a separator
    where the directory needs one. *)
Lemma OsPath_join_relative dir (b : list N) :
  startswith OsPath.sep b = false ->
  OsPath.join dir b =
  (dir ++ if (is_nil dir || endswith OsPath.sep dir)%bool then [] else OsPath.sep) ++ b.
Proof.
  intros H. unfold OsPath.join. rewrite H.
  destruct dir as [|c dir]; [done|]. cbn [is_nil orb].
  destruct (endswith OsPath.sep (c :: dir)).
  - by rewrite app_nil_r.
  - by rewrite <- app_assoc.
Qed.

Lemma startswith_sep_app id suffix :
  startswith OsPath.sep id = false -> startswith OsPath.sep suffix = false ->
  startswith OsPath.sep (id ++ suffix) = false.
Proof. destruct id as [|c id]; [done|]. intros H _. exact H. Qed.

Lemma OsPath_join_inj dir id1 id2 suffix :
  startswith OsPath.sep id1 = false -> startswith OsPath.sep id2 = false ->
  startswith OsPath.sep suffix = false ->
  OsPath.join dir (id1 ++ suffix) = OsPath.join dir (id2 ++ suffix) -> id1 = id2.
Proof.
  intros H1 H2 Hs. rewrite !OsPath_join_relative by (by apply startswith_sep_app).
  intros H%app_inv_head. by apply app_inv_tail in H.
Qed.

(** X18: in one set of directories, the script, output and error paths
    computed for two identifiers that differ and do not begin with [/] are
    different strings.  (Two spellings such as [q1] and [./q1] still name
    one file on disk.) *)
Theorem row_files_differ id1 id2 (scripts_path outputs_path errors_path : list N) :
  id1 <> id2 ->
  startswith OsPath.sep id1 = false -> startswith OsPath.sep id2 = false ->
  script_path id1 scripts_path <> script_path id2 scripts_path /\
  output_path id1 outputs_path <> output_path id2 outputs_path /\
  error_path id1 errors_path <> error_path id2 errors_path.
Proof.
  intros Hne H1 H2. unfold script_path, output_path, error_path.
  repeat split; intros H; apply Hne; by apply OsPath_join_inj in H.
Qed.

Lemma row_files_differ_witness :
  script_path (py "q1") (py "scripts") <> script_path (py "q2") (py "scripts") /\
  output_path (py "q1") (py "outputs") <> output_path (py "q2") (py "outputs") /\
  error_path (py "q1") (py "errors") <> error_path (py "q2") (py "errors").
Proof.
  apply (row_files_differ (py "q1") (py "q2")).
  - discriminate.
  - reflexivity.
  - reflexivity.
Defined.

(** An identifier that begins with [/] replaces the directory, and can
    then name the file of another identifier. *)
Lemma script_path_absolute_collides :
  script_path (py "/scripts/q1") (py "/scripts") = script_path (py "q1") (py "/scripts").
Proof. reflexivity. Qed.

Lemma script_path_not_artifact id1 id2 id3 (scripts_path outputs_path errors_path : list N) :
  script_path id1 scripts_path <> error_path id2 errors_path /\
  script_path id1 scripts_path <> output_path id3 outputs_path.
Proof.
  unfold script_path, error_path, output_path.
  destruct (OsPath_join_suffix scripts_path (id1 ++ py ".py")) as [p1 ->].
  destruct (OsPath_join_suffix errors_path (id2 ++ py "_error.txt")) as [p2 ->].
  destruct (OsPath_join_suffix outputs_path (id3 ++ py "_output.txt")) as [p3 ->].
  split; intros H; apply (f_equal (@rev N)) in H;
    rewrite !rev_app_distr in H; vm_compute (rev (py _)) in H;
    rewrite <- !app_assoc in H; simpl in H; by injection H.
Qed.

Lemma error_path_not_output id1 id2 (outputs_path errors_path : list N) :
  error_path id1 errors_path <> output_path id2 outputs_path.
Proof.
  unfold error_path, output_path.
  destruct (OsPath_join_suffix errors_path (id1 ++ py "_error.txt")) as [p1 ->].
  destruct (OsPath_join_suffix outputs_path (id2 ++ py "_output.txt")) as [p2 ->].
  intros H. apply (f_equal (@rev N)) in H.
  rewrite !rev_app_distr in H. vm_compute (rev (py _)) in H.
  rewrite <- !app_assoc in H. simpl in H. by injection H.
Qed.

(** X19: a script, an output file and an error file are never the same
    file, whatever the identifiers and even when the three directories are
    one. *)
Theorem file_kinds_differ id1 id2 id3 (scripts_path outputs_path errors_path : list N) :
  script_path id1 scripts_path <> error_path id2 errors_path /\
  script_path id1 scripts_path <> output_path id3 outputs_path /\
  error_path id2 errors_path <> output_path id3 outputs_path.
Proof.
  destruct (script_path_not_artifact id1 id2 id3 scripts_path outputs_path errors_path).
  repeat split; try done. apply error_path_not_output.
Qed.

End Paths.

(** ** The batch driver *)

Section DriverMore.

Implicit Types (exec : interpreter) (g : globals) (r : row) (w : world).

(** X20: text without marker gives the empty script, whatever the file
    name and the identifier. *)
Theorem script_of_no_marker g r :
  contains marker (CODE_COLUMN r) = false -> script_of g r = [].
Proof. intros H. unfold script_of. by rewrite get_code_absent. Qed.

Lemma script_of_no_marker_witness : script_of sample_globals row_no_fence = [].
Proof. apply script_of_no_marker. reflexivity. Defined.

(** X22: rows with empty cells leave every file as it is, whatever the
    interpreter; all that happens is one message per row, with the number
    of the row. *)
Theorem process_rows_empty_cells exec g n (rows : list row) w :
  Forall (fun r => CODE_COLUMN r = []) rows ->
  process_rows exec g n rows w =
  Ok tt {| files := files w;
           console := console w ++ (skip_message <$> seq n (length rows)) |}.
Proof.
  intros H. revert n w. induction H as [|r rows Hr _ IH]; intros n w.
  - cbn. rewrite app_nil_r. by destruct w.
  - cbn [process_rows]. rewrite bind_eq. unfold process_row. rewrite Hr.
    cbn [nonempty]. unfold print. rewrite IH. cbn [files console length seq fmap list_fmap].
    by rewrite <- app_assoc.
Qed.

Lemma process_rows_empty_cells_witness :
  process_rows sample_exec sample_globals 0 [row_empty; row_empty] stale_world =
  Ok tt {| files := files stale_world;
           console := [py "Skipping row 0 with no code."; py "Skipping row 1 with no code."] |}.
Proof.
  apply (process_rows_empty_cells sample_exec sample_globals 0 [row_empty; row_empty]).
  repeat constructor.
Defined.

(** X24: processing a row leaves untouched every path other than the
    three paths computed for the row (script, error file, output file),
    whether the row is done or its execution raises.  The snippet is taken
    to leave that path alone. *)
Theorem process_row_frame exec g n r w (p : list N) :
  p <> script_path (ID_COLUMN r) (SCRIPTS_PATH g) ->
  p <> error_path (ID_COLUMN r) (EXECUTION_ERRORS_PATH g) ->
  p <> output_path (ID_COLUMN r) (EXECUTION_OUTPUTS_PATH g) ->
  (forall fs, (exec (script_of g r) fs).2 !! p = fs !! p) ->
  files (world_of (process_row exec g n r w)) !! p = files w !! p.
Proof.
  intros Hs He Ho Hexec. destruct (nonempty (CODE_COLUMN r)) eqn:Hcell.
  - rewrite process_row_run by done. unfold save_script. step_M.
    set (w1 := {| files := <[_ := _]> (files w) |}).
    assert (files (world_of (execute_code exec (script_of g r) true (ID_COLUMN r)
                               (EXECUTION_OUTPUTS_PATH g) (EXECUTION_ERRORS_PATH g) w1))
              !! p = files w !! p) as H.
    { rewrite execute_code_frame, Hexec, cleaned_other by done.
      by apply lookup_insert_ne. }
    by destruct (execute_code exec (script_of g r) true _ _ _ w1).
  - unfold process_row. by rewrite Hcell.
Qed.

Lemma process_row_frame_witness :
  files (world_of (process_row sample_exec sample_globals 1 row_raise stale_world))
    !! py "errors/q1_error.txt" =
  Some (py "NameError at line 1: name 'x' is not defined").
Proof.
  rewrite (process_row_frame sample_exec sample_globals 1 row_raise stale_world
             (py "errors/q1_error.txt")).
  - reflexivity.
  - discriminate.
  - discriminate.
  - discriminate.
  - intros fs. reflexivity.
Defined.

End DriverMore.

(** ** Passing the path rewriter twice *)

Section Idempotence.

Implicit Types (s line code path old new : list N) (lines pre post : list (list N)).

(** *** When a replacement changes the text *)

Lemma replace_length s old new :
  old <> [] ->
  (length (replace s old new) + count old s * length old =
   length s + count old s * length new)%nat.
Proof.
  intros Hne. induction s as [| c s Hc IH | s IH] using (replace_ind old Hne).
  - rewrite replace_nil. by destruct old.
  - rewrite replace_skip, count_skip by done. simpl. lia.
  - rewrite replace_match, count_match by done. rewrite !length_app. lia.
Qed.

Lemma replace_changes s old new :
  old <> [] -> contains old s = true -> new <> old -> replace s old new <> s.
Proof.
  intros Hne Hc Hnew. revert Hc.
  induction s as [| c s Hs IH | s IH] using (replace_ind old Hne).
  - by destruct old.
  - rewrite contains_cons, Hs. cbn [orb]. intros Hc.
    rewrite replace_skip by done. intros [= H]. by apply IH.
  - intros _. rewrite replace_match by done. intros H.
    pose proof (replace_length s old new Hne) as Hlen.
    pose proof (f_equal length H) as Hl. rewrite !length_app in Hl.
    assert (length new = length old) as Heq by nia.
    apply app_inj_1 in H; [|done]. by destruct H.
Qed.

(** A slice of a text is a piece of it. *)
Lemma contains_slice s lo hi : contains (slice s lo hi) s = true.
Proof.
  unfold slice. apply contains_spec.
  set (m := Z.to_nat (adjust_index _ lo)). set (n := Z.to_nat _).
  exists (take m s), (drop n (drop m s)).
  by rewrite take_drop, take_drop.
Qed.

(** *** The loop, by the line it stops at *)

Lemma update_loop_first_hit lines code path :
  update_loop lines code path =
  match first_hit lines with
  | None => code
  | Some line => replace code line (replace line (wrong_path line) path)
  end.
Proof.
  induction lines as [|l lines IH]; [done|]. cbn [update_loop first_hit].
  destruct (contains csv_ext l); [|done]. cbn [andb].
  assert ((0 <? length (wrong_path l))%nat = nonempty (wrong_path l)) as ->
    by (by destruct (wrong_path l)).
  by destruct (nonempty (wrong_path l)).
Qed.

Lemma first_hit_Some lines line :
  first_hit lines = Some line ->
  line ∈ lines /\ contains csv_ext line = true /\ wrong_path line <> [].
Proof.
  induction lines as [|l lines IH]; [done|]. cbn [first_hit].
  destruct (contains csv_ext l && nonempty (wrong_path l))%bool eqn:E.
  - intros [= <-]. apply andb_prop in E as [E1 E2].
    split; [apply list_elem_of_here|]. split; [done|]. by destruct (wrong_path l).
  - intros H. destruct (IH H) as (H1 & H2 & H3).
    split; [by apply list_elem_of_further|done].
Qed.

Lemma first_hit_pass pre lines :
  Forall passed_over pre -> first_hit (pre ++ lines) = first_hit lines.
Proof.
  induction 1 as [|l pre Hl _ IH]; [done|].
  change ((l :: pre) ++ lines) with (l :: (pre ++ lines)). cbn [first_hit].
  destruct Hl as [-> | ->]; [done|]. by rewrite andb_false_r.
Qed.

(** The texts the path rewriter leaves as they are. *)
Lemma update_fixed_iff (code filename datasets_path : list N) :
  update_dataset_local_path code filename datasets_path = code <->
  match first_hit (splitlines code) with
  | None => True
  | Some line => wrong_path line = OsPath.join datasets_path filename
  end.
Proof.
  unfold update_dataset_local_path. rewrite update_loop_first_hit.
  destruct (first_hit (splitlines code)) as [line|] eqn:Hhit; [|done].
  destruct (first_hit_Some _ _ Hhit) as (Hin & Hc & Hw).
  assert (line <> []) as Hline by (by apply wrong_path_nonempty).
  split.
  - intros H. destruct (decide (wrong_path line = OsPath.join datasets_path filename))
      as [|Hne]; [done|]. exfalso. revert H. apply replace_changes; [done| |].
    + pose proof (splitlines_contained code) as Hall.
      rewrite Forall_forall in Hall. by apply Hall.
    + apply replace_changes; [done|apply contains_slice|by apply not_eq_sym].
  - intros <-. rewrite replace_same by done. by apply replace_same.
Qed.

(** *** A line with a quoted text *)

Lemma not_elem_of_Forall (c : N) s : c ∉ s <-> Forall (fun x => x <> c) s.
Proof.
  rewrite Forall_forall. split.
  - intros H x Hx ->. by apply H.
  - intros H Hc. by apply (H c).
Qed.

Lemma replace_not_elem (c : N) s old new :
  old <> [] -> c ∉ s -> c ∉ new -> c ∉ replace s old new.
Proof. rewrite !not_elem_of_Forall. apply replace_Forall. Qed.

Lemma wrong_path_between (q : N) (a w b : list N) :
  is_quote q -> q ∉ a -> q ∉ b ->
  (q = 34%N -> 39%N ∉ a ++ w ++ b) ->
  wrong_path (a ++ q :: w ++ q :: b) = w.
Proof.
  intros Hq Ha Hb Hs. unfold wrong_path.
  assert (quote_symbol (a ++ q :: w ++ q :: b) = [q]) as ->.
  { unfold quote_symbol, single_quote. change (py "'") with [39%N].
    destruct Hq as [-> | ->].
    - replace (contains _ _) with true; [done|]. symmetry.
      apply contains_single. rewrite elem_of_app, elem_of_cons. auto.
    - rewrite contains_single_false; [done|]. specialize (Hs eq_refl).
      rewrite !not_elem_of_app in Hs. destruct Hs as (H1 & H2 & H3).
      rewrite !not_elem_of_app, !not_elem_of_cons, !not_elem_of_app, !not_elem_of_cons.
      repeat split; done. }
  unfold find, rfind. rewrite index_of_single by done.
  replace (a ++ q :: w ++ q :: b) with ((a ++ q :: w) ++ q :: b) at 2
    by (by rewrite <- app_assoc).
  rewrite rindex_of_single by done.
  replace (a ++ q :: w ++ q :: b) with ((a ++ [q]) ++ w ++ q :: b)
    by (by rewrite <- app_assoc).
  replace (Z.of_nat (length a) + 1) with (Z.of_nat (length (a ++ [q])))
    by (rewrite length_app; simpl; lia).
  replace (length (a ++ q :: w)) with (length (a ++ [q]) + length w)%nat
    by (rewrite !length_app; simpl; lia).
  apply slice_middle.
Qed.

Lemma startswith_app_short old s t :
  (length old <= length s)%nat -> startswith old (s ++ t) = true -> startswith old s = true.
Proof.
  revert s. induction old as [|x old IH]; intros [|y s]; simpl; try done; try lia.
  intros Hl [-> H]%andb_prop. cbn [andb]. apply IH; [lia|done].
Qed.

(** The replacement passes a character that no occurrence of [old]
    covers. *)
Lemma replace_app_uncovered s c t old new :
  old <> [] ->
  (forall i, (i <= length s)%nat -> (length s < i + length old)%nat ->
             startswith old (drop i (s ++ c :: t)) = false) ->
  replace (s ++ c :: t) old new = replace s old new ++ c :: replace t old new.
Proof.
  intros Hne. remember (length s) as n eqn:Hn. revert s Hn.
  induction n as [n IH] using lt_wf_ind. intros s Hn Hcov.
  destruct s as [|x s].
  - cbn [app]. rewrite replace_nil. replace (match old with [] => new | _ => [] end) with (@nil N)
      by (by destruct old).
    cbn [app]. rewrite replace_skip; [done..|].
    apply (Hcov 0%nat); [lia|]. subst n. destruct old; [done|simpl; lia].
  - destruct (startswith old ((x :: s) ++ c :: t)) eqn:Hs.
    + assert (length old <= length (x :: s))%nat as Hlen.
      { destruct (decide (length old <= length (x :: s))%nat) as [|Hgt]; [done|].
        assert (startswith old (drop 0 ((x :: s) ++ c :: t)) = false) as H0
          by (apply Hcov; subst n; lia).
        rewrite drop_0 in H0. congruence. }
      pose proof (startswith_app_short _ _ _ Hlen Hs) as Hs'.
      apply startswith_inv in Hs'. set (r := drop (length old) (x :: s)) in *.
      assert (length (x :: s) = length old + length r)%nat as Hlr
        by (rewrite Hs' at 1; by rewrite length_app).
      rewrite Hs', <- app_assoc, !replace_match by done.
      rewrite (IH (length r)) with (s := r); [by rewrite <- app_assoc| |done|].
      * subst n. destruct old; [done|]. simpl in *. lia.
      * intros i Hi1 Hi2.
        replace (drop i (r ++ c :: t)) with (drop (length old + i) ((x :: s) ++ c :: t)).
        -- apply Hcov; subst n; lia.
        -- rewrite Hs' at 1. rewrite <- app_assoc, <- drop_drop. by rewrite drop_app_length.
    + change ((x :: s) ++ c :: t) with (x :: (s ++ c :: t)) in *.
      rewrite replace_skip by done.
      rewrite (IH (length s)) with (s := s); [| subst n; simpl; lia | done |].
      * rewrite (replace_skip old new x s); [done..|].
        destruct (startswith old (x :: s)) eqn:E; [|done].
        change (x :: s ++ c :: t) with ((x :: s) ++ c :: t) in Hs.
        by rewrite (startswith_app_l _ _ _ E) in Hs.
      * intros i Hi1 Hi2. apply (Hcov (S i)); subst n; simpl; lia.
Qed.

(** Rewriting a line [a q w q b]: as long as no occurrence of [w]
    covers the first quote or begins at the last one, the two quotes stay
    and the path stands between them. *)
Lemma replace_between (q : N) (a w b path : list N) :
  w <> [] ->
  (forall i, (i <= length a)%nat -> (length a < i + length w)%nat ->
             startswith w (drop i (a ++ q :: w ++ q :: b)) = false) ->
  startswith w (q :: b) = false ->
  replace (a ++ q :: w ++ q :: b) w path =
  replace a w path ++ q :: path ++ q :: replace b w path.
Proof.
  intros Hne Hcov Hlast. rewrite replace_app_uncovered by done.
  by rewrite replace_match, replace_skip.
Qed.

(** C9, as the code has it: a second pass changes nothing exactly when
    the result of the first pass has no line with [.csv] and a quoted
    text, or when the first such line quotes the resolved path itself.
    This is so, in particular, when the line the first pass stops at is
    [a q w q b], with [q] the quote in use and [w] the non-empty text
    between its first and last occurrence, when no other occurrence of [w]
    covers the first quote or begins at the last one, when no earlier line
    holds the whole line, when the resolved path has no apostrophe, no [q]
    and no line boundary, and when the path holds [.csv] or no later line
    does. *)
Theorem update_idempotent (code filename datasets_path : list N) :
  let path := OsPath.join datasets_path filename in
  let once := update_dataset_local_path code filename datasets_path in
  (update_dataset_local_path once filename datasets_path = once <->
   match first_hit (splitlines once) with
   | None => True
   | Some line => wrong_path line = path
   end) /\
  (forall pre (a : list N) (q : N) (w b : list N) post,
     splitlines code = pre ++ (a ++ q :: w ++ q :: b) :: post ->
     Forall (fun l => passed_over l /\ contains (a ++ q :: w ++ q :: b) l = false) pre ->
     contains csv_ext (a ++ q :: w ++ q :: b) = true ->
     is_quote q -> q ∉ a -> q ∉ b -> (q = 34%N -> 39%N ∉ a ++ w ++ b) ->
     w <> [] ->
     (forall i, (i <= length a)%nat -> (length a < i + length w)%nat ->
                startswith w (drop i (a ++ q :: w ++ q :: b)) = false) ->
     startswith w (q :: b) = false ->
     path <> [] -> no_linebreak path -> 39%N ∉ path -> q ∉ path ->
     contains csv_ext path = true \/ Forall (fun l => contains csv_ext l = false) post ->
     update_dataset_local_path once filename datasets_path = once).
Proof.
  intros path once. split; [apply update_fixed_iff|].
  intros pre a q w b post Hs Hpre Hc Hq Ha Hb H39 Hw Hcov Hlast Hpath Hnl Hp39 Hpq Hlater.
  set (line := a ++ q :: w ++ q :: b) in *.
  assert (wrong_path line = w) as Hwp by (by apply wrong_path_between).
  assert (Forall passed_over pre) as Hpass.
  { eapply Forall_impl; [exact Hpre|]. by intros l [H _]. }
  assert (line <> []) as Hline by (by destruct a).
  set (newline := replace line w path).
  assert (newline = replace a w path ++ q :: path ++ q :: replace b w path) as Hnew
    by (by apply replace_between).
  assert (once = replace code line newline) as Honce.
  { unfold once, update_dataset_local_path. fold path.
    rewrite Hs, update_loop_pass, update_loop_hit by (by rewrite ?Hwp). by rewrite Hwp. }
  assert (no_linebreak line) as Hlnl.
  { pose proof (splitlines_no_linebreak code) as H. rewrite Hs in H.
    apply Forall_app in H as [_ H]. by apply Forall_cons in H as [H _]. }
  assert (wrong_path newline = path) as Hwp'.
  { rewrite Hnew. apply wrong_path_between; [done|by apply replace_not_elem..|].
    intros ->. specialize (H39 eq_refl). rewrite !not_elem_of_app in H39.
    destruct H39 as (H1 & H2 & H3).
    rewrite !not_elem_of_app. repeat split; try done; by apply replace_not_elem. }
  assert (splitlines once =
          pre ++ newline :: ((fun l => replace l line newline) <$> post)) as Hlines.
  { rewrite Honce, splitlines_replace; [|done|done|by apply replace_nonempty
                                        |by apply replace_Forall].
    rewrite Hs, fmap_app, fmap_cons, replace_self by done. f_equal.
    apply list_eq_Forall2, Forall2_fmap_l, Forall_Forall2_diag.
    eapply Forall_impl; [exact Hpre|]. intros l [_ Hl]. by apply replace_absent. }
  destruct (contains csv_ext newline) eqn:Hcn.
  - apply (update_fixed_on_local_path _ _ _ pre newline _ Hlines); try done.
    by rewrite Hwp'.
  - destruct Hlater as [Hpc | Hpost].
    { rewrite Hnew in Hcn. rewrite contains_app_r in Hcn; [done|].
      change (q :: path ++ q :: replace b w path)
        with ([q] ++ path ++ q :: replace b w path).
      by apply contains_app_r, contains_app_l. }
    unfold update_dataset_local_path. rewrite Hlines.
    rewrite update_loop_pass by done.
    rewrite <- (app_nil_r (newline :: _)), update_loop_pass; [done|].
    constructor; [by left|].
    apply Forall_fmap. eapply Forall_impl; [exact Hpost|]. intros l Hl. cbv beta.
    left. by rewrite replace_absent by (by apply (contains_not_absent csv_ext)).
Qed.

Lemma update_idempotent_witness :
  update_dataset_local_path
    (update_dataset_local_path code_separator (py "d.csv") (py "data"))
    (py "d.csv") (py "data") =
  update_dataset_local_path code_separator (py "d.csv") (py "data").
Proof.
  destruct (update_idempotent code_separator (py "d.csv") (py "data")) as [_ H].
  apply (H [py "import pandas as pd"; py "# it's in a.csv"]
           (py "df = pd.read_csv(") 39%N (py "a.csv', sep=';") (py ")") []).
  - reflexivity.
  - constructor; [split; [by left|reflexivity]|].
    constructor; [split; [by right|reflexivity]|constructor].
  - reflexivity.
  - by left.
  - vm_compute py. rewrite !not_elem_of_cons. repeat split; try done. apply not_elem_of_nil.
  - vm_compute py. rewrite !not_elem_of_cons. repeat split; try done. apply not_elem_of_nil.
  - discriminate.
  - discriminate.
  - intros i Hi1 Hi2. vm_compute in Hi1, Hi2.
    do 18 (destruct i as [|i]; [try lia; reflexivity|]). lia.
  - reflexivity.
  - discriminate.
  - vm_compute. repeat constructor.
  - change (OsPath.join (py "data") (py "d.csv")) with (py "data/d.csv").
    vm_compute py. rewrite !not_elem_of_cons. repeat split; try done. apply not_elem_of_nil.
  - change (OsPath.join (py "data") (py "d.csv")) with (py "data/d.csv").
    vm_compute py. rewrite !not_elem_of_cons. repeat split; try done. apply not_elem_of_nil.
  - by left.
Defined.

(** A file name with an apostrophe changes the quote in use: the line
    rewritten by the first pass is passed over by the second, which goes
    on to the next one. *)
Lemma update_not_idempotent_apostrophe :
  update_dataset_local_path (py "a = f(" ++ double_quote ++ py "a.csv" ++ double_quote ++ py ")"
                               ++ [LF] ++ py "b = f('b.csv')")
    (py "d's.csv") (py "data") =
    py "a = f(" ++ double_quote ++ py "data/d's.csv" ++ double_quote ++ py ")"
      ++ [LF] ++ py "b = f('b.csv')" /\
  update_dataset_local_path (py "a = f(" ++ double_quote ++ py "data/d's.csv" ++ double_quote
                               ++ py ")" ++ [LF] ++ py "b = f('b.csv')")
    (py "d's.csv") (py "data") =
    py "a = f(" ++ double_quote ++ py "data/d's.csv" ++ double_quote ++ py ")"
      ++ [LF] ++ py "b = f('data/d's.csv')".
Proof. split; reflexivity. Qed.

End Idempotence.
